(** * UTMConverter: telemetry log to UTM flight-logging track

    A shallow embedding of [custom/src/UTMConverter.cc].  The converter reads
    a telemetry log (an 8-byte timestamp followed by a MAVLink frame,
    repeated), folds the decoded messages into a list of log items and
    writes them out as a JSON document.

    Integers of the C++ code are [Z] with their wrap-around written out,
    [double] values are the kernel's binary64 floats, the byte array handed
    to the timestamp decoder is a [list byte]. *)

From Stdlib Require Import ZArith List Bool Lia.
From Stdlib Require String.
From Stdlib Require Import Floats Uint63.
From coqutil Require Import Byte Z.bitblast Z.BitOps.
Import ListNotations.

Local Open Scope Z_scope.

(** ** Machine integers *)

Module Int.

Definition two64 : Z := 2 ^ 64.

(** A [quint64] result: arithmetic is modulo [2^64]. *)
Definition wrap64 (z : Z) : Z := z mod two64.

Definition in_u64 (z : Z) : Prop := 0 <= z < two64.

(** A [quint64] read as a [qint64]. *)
Definition to_qint64 (z : Z) : Z := if z <? 2 ^ 63 then z else z - two64.

End Int.

(** ** Byte order (QtEndian) *)

Module Endian.

Import Int.

Inductive ByteOrder := LittleEndian | BigEndian.

(** Qt's [qbswap<quint64>], by masks and shifts: the eight bytes of the
    argument in reverse order. *)
Definition qbswap (source : Z) : Z :=
  Z.lor (Z.shiftl (Z.land source 0x00000000000000ff) 56)
 (Z.lor (Z.shiftl (Z.land source 0x000000000000ff00) 40)
 (Z.lor (Z.shiftl (Z.land source 0x0000000000ff0000) 24)
 (Z.lor (Z.shiftl (Z.land source 0x00000000ff000000) 8)
 (Z.lor (Z.shiftr (Z.land source 0x000000ff00000000) 8)
 (Z.lor (Z.shiftr (Z.land source 0x0000ff0000000000) 24)
 (Z.lor (Z.shiftr (Z.land source 0x00ff000000000000) 40)
        (Z.shiftr (Z.land source 0xff00000000000000) 56))))))).

(** Qt's [qFromBigEndian<quint64>]: a swap on a little-endian host, the
    identity on a big-endian one. *)
Definition qFromBigEndian (host : ByteOrder) (source : Z) : Z :=
  match host with
  | LittleEndian => qbswap source
  | BigEndian => source
  end.

(** The value of the bytes [bs], lowest address first, read as an integer
    whose least significant byte comes first. *)
Fixpoint le_value (bs : list byte) : Z :=
  match bs with
  | [] => 0
  | b :: rest => Z.lor (byte.unsigned b) (Z.shiftl (le_value rest) 8)
  end.

(** The big-endian unsigned integer written in the bytes [bs]: the first
    byte is the most significant one. *)
Definition be_value (bs : list byte) : Z :=
  fold_left (fun acc b => acc * 256 + byte.unsigned b) bs 0.

(** [*((quint64* )p)]: what the host reads from eight consecutive bytes. *)
Definition load_u64 (host : ByteOrder) (bs : list byte) : Z :=
  match host with
  | LittleEndian => le_value bs
  | BigEndian => le_value (rev bs)
  end.

End Endian.

(** ** Timestamps *)

Module Timestamp.

Import Int Endian.

Definition TIMESTAMP_SIZE : nat := 8.

Section Decode.

(** The byte order of the machine running the converter. *)
Variable host : ByteOrder.

(** The bytes that lie in memory behind the end of a byte array: a read of
    fewer than [TIMESTAMP_SIZE] bytes leaves the decoder looking at them. *)
Variable beyond : nat -> byte.

(** The eight bytes at [bytes.constData()]. *)
Definition constData8 (bytes : list byte) : list byte :=
  map (fun i => nth i bytes (beyond (i - List.length bytes)%nat))
      (seq 0 TIMESTAMP_SIZE).

(** [((quint64)QDateTime::currentMSecsSinceEpoch()) * 1000]. *)
Definition currentTimestamp (nowMSecs : Z) : Z :=
  wrap64 (wrap64 nowMSecs * 1000).

(** [UTMConverter::_parseTimestamp], with the clock reading as argument. *)
Definition _parseTimestamp (nowMSecs : Z) (bytes : list byte) : Z :=
  let timestamp := qFromBigEndian host (load_u64 host (constData8 bytes)) in
  if timestamp >? currentTimestamp nowMSecs
  then qbswap timestamp
  else timestamp.

End Decode.

End Timestamp.

(** ** Conversions to [double] *)

Module Double.

Local Open Scope float_scope.

(** An [int32_t] converted to [double]; every 32-bit integer is a binary64
    value, so the conversion is exact. *)
Definition of_int32 (z : Z) : float :=
  if (z <? 0)%Z
  then - of_uint63 (Uint63.of_Z (- z))
  else of_uint63 (Uint63.of_Z z).

(** A [quint64] converted to [double], rounding to nearest-even.  Below
    [2^63] the value fits the primitive conversion; from [2^63] on it is
    halved with its lowest bit kept as a sticky bit, converted and doubled,
    which rounds the same way. *)
Definition of_u64 (z : Z) : float :=
  if (z <? 2 ^ 63)%Z
  then of_uint63 (Uint63.of_Z z)
  else of_uint63 (Uint63.of_Z (Z.lor (Z.shiftr z 1) (Z.land z 1))) * 2.

End Double.

(** ** MAVLink messages

    The MAVLink C library is an external collaborator.  A received
    [mavlink_message_t] carries a message id and a payload that the
    [mavlink_msg_*_decode] functions unpack into a struct; here a message is
    a tagged value holding the unpacked struct, so that the [switch] on
    [message.msgid] followed by the decode call is a [match].  Only the
    struct fields that the converter reads are kept. *)

Module Mavlink.

(** MAVLink's [GPS_FIX_TYPE] enumeration: [3] is the 3D fix. *)
Definition GPS_FIX_TYPE_3D_FIX : Z := 3.

Module gps_raw_int.
(** [mavlink_gps_raw_int_t]: [fix_type] is a [uint8_t], the others
    [int32_t] (degrees * 1e7, millimetres). *)
Record t := mk { fix_type : Z; lat : Z; lon : Z; alt : Z }.
End gps_raw_int.

Module global_position_int.
(** [mavlink_global_position_int_t]: three [int32_t]. *)
Record t := mk { lat : Z; lon : Z; alt : Z }.
End global_position_int.

Module vfr_hud.
(** [mavlink_vfr_hud_t]: [groundspeed] is a [float], held here as the
    [double] it widens to. *)
Record t := mk { groundspeed : float }.
End vfr_hud.

Inductive mavlink_message_t :=
| MAVLINK_MSG_ID_GPS_RAW_INT (gpsRawInt : gps_raw_int.t)
| MAVLINK_MSG_ID_GLOBAL_POSITION_INT (globalPositionInt : global_position_int.t)
| MAVLINK_MSG_ID_VFR_HUD (vfrHud : vfr_hud.t)
| MAVLINK_MSG_ID_other (msgid : Z).

End Mavlink.

(** ** The converter object and its message handlers *)

Module Converter.

Import Int Mavlink.

(** Modelled from the spec: the struct is declared in [UTMConverter.h], which
    is not among the sources; the spec's TrackSample has five floating-point
    fields. *)
Record UTM_LogItem := mkItem {
  time : float;
  lon : float;
  lat : float;
  alt : float;
  speed : float
}.

(** Modelled from the spec: the members are declared in [UTMConverter.h];
    the two timestamps are unsigned 64-bit microsecond counts, the speed is a
    floating-point value, the log items an ordered growable sequence.  The
    members [_logFile] and the channel's parser state are carried by the
    reader below. *)
Record UTMConverter := mkConverter {
  _curTimeUSecs : Z;
  _startDTG : Z;
  _lastSpeed : float;
  _gpsRawIntMessageAvailable : bool;
  _globalPositionIntMessageAvailable : bool;
  _mavlinkChannel : Z;
  _logItems : list UTM_LogItem
}.

(** [UTMConverter::UTMConverter()]. *)
Definition UTMConverter_new : UTMConverter :=
  {| _curTimeUSecs := 0;
     _startDTG := 0;
     _lastSpeed := 0%float;
     _gpsRawIntMessageAvailable := false;
     _globalPositionIntMessageAvailable := false;
     _mavlinkChannel := 0;
     _logItems := [] |}.

Definition set_curTimeUSecs (v : Z) (c : UTMConverter) : UTMConverter :=
  mkConverter v (_startDTG c) (_lastSpeed c) (_gpsRawIntMessageAvailable c)
              (_globalPositionIntMessageAvailable c) (_mavlinkChannel c) (_logItems c).

Definition set_startDTG (v : Z) (c : UTMConverter) : UTMConverter :=
  mkConverter (_curTimeUSecs c) v (_lastSpeed c) (_gpsRawIntMessageAvailable c)
              (_globalPositionIntMessageAvailable c) (_mavlinkChannel c) (_logItems c).

Definition set_lastSpeed (v : float) (c : UTMConverter) : UTMConverter :=
  mkConverter (_curTimeUSecs c) (_startDTG c) v (_gpsRawIntMessageAvailable c)
              (_globalPositionIntMessageAvailable c) (_mavlinkChannel c) (_logItems c).

Definition set_gpsRawIntMessageAvailable (v : bool) (c : UTMConverter) : UTMConverter :=
  mkConverter (_curTimeUSecs c) (_startDTG c) (_lastSpeed c) v
              (_globalPositionIntMessageAvailable c) (_mavlinkChannel c) (_logItems c).

Definition set_globalPositionIntMessageAvailable (v : bool) (c : UTMConverter) : UTMConverter :=
  mkConverter (_curTimeUSecs c) (_startDTG c) (_lastSpeed c) (_gpsRawIntMessageAvailable c)
              v (_mavlinkChannel c) (_logItems c).

Definition set_mavlinkChannel (v : Z) (c : UTMConverter) : UTMConverter :=
  mkConverter (_curTimeUSecs c) (_startDTG c) (_lastSpeed c) (_gpsRawIntMessageAvailable c)
              (_globalPositionIntMessageAvailable c) v (_logItems c).

(** [_logItems.append(logItem)]. *)
Definition append (logItem : UTM_LogItem) (c : UTMConverter) : UTMConverter :=
  mkConverter (_curTimeUSecs c) (_startDTG c) (_lastSpeed c) (_gpsRawIntMessageAvailable c)
              (_globalPositionIntMessageAvailable c) (_mavlinkChannel c)
              (_logItems c ++ [logItem]).

(** [a != b] on [double]: true when either side is a NaN. *)
Definition neq (a b : float) : bool := negb (PrimFloat.eqb a b).

(** [UTMConverter::_compareItem]. *)
Definition _compareItem (logItem1 logItem2 : UTM_LogItem) : bool :=
  if neq (lon logItem1) (lon logItem2) then false
  else if neq (lat logItem1) (lat logItem2) then false
  else if neq (alt logItem1) (alt logItem2) then false
  else if neq (speed logItem1) (speed logItem2) then false
  else true.

(** [_logItems.size()] *)
Definition size (c : UTMConverter) : nat := List.length (_logItems c).

(** [_logItems[i]]; every use below has [i] in range, and [d] stands for
    what an out-of-range access would read. *)
Definition at_ (c : UTMConverter) (i : nat) (d : UTM_LogItem) : UTM_LogItem :=
  nth i (_logItems c) d.

(** The tail shared by the two position handlers: append [logItem] unless it
    compares equal to the last item of a non-empty [_logItems]. *)
Definition appendUnlessRepeated (logItem : UTM_LogItem) (c : UTMConverter) : UTMConverter :=
  if negb (Nat.eqb (size c) 0) then
    if negb (_compareItem (at_ c (size c - 1) logItem) logItem)
    then append logItem c
    else c
  else append logItem c.

(** [(_curTimeUSecs - _startDTG) / 1000000.0] *)
Definition elapsed (c : UTMConverter) : float :=
  (Double.of_u64 (wrap64 (_curTimeUSecs c - _startDTG c)) / 1000000)%float.

(** [UTMConverter::_handleGpsRawInt]. *)
Definition _handleGpsRawInt (gpsRawInt : gps_raw_int.t) (c : UTMConverter) : UTMConverter :=
  let c := set_gpsRawIntMessageAvailable true c in
  if negb (_globalPositionIntMessageAvailable c) then
    if gps_raw_int.fix_type gpsRawInt >=? GPS_FIX_TYPE_3D_FIX then
      let logItem :=
        {| lon := (Double.of_int32 (gps_raw_int.lat gpsRawInt) / 1e7)%float;
           lat := (Double.of_int32 (gps_raw_int.lat gpsRawInt) / 1e7)%float;
           alt := (Double.of_int32 (gps_raw_int.alt gpsRawInt) / 1000)%float;
           time := elapsed c;
           speed := _lastSpeed c |} in
      appendUnlessRepeated logItem c
    else c
  else c.

(** [UTMConverter::_handleVfrHud]. *)
Definition _handleVfrHud (vfrHud : vfr_hud.t) (c : UTMConverter) : UTMConverter :=
  set_lastSpeed
    (if PrimFloat.is_nan (vfr_hud.groundspeed vfrHud)
     then 0%float
     else vfr_hud.groundspeed vfrHud)
    c.

(** [UTMConverter::_handleGlobalPositionInt]. *)
Definition _handleGlobalPositionInt (globalPositionInt : global_position_int.t)
    (c : UTMConverter) : UTMConverter :=
  let c := set_globalPositionIntMessageAvailable true c in
  let logItem :=
    {| lon := (Double.of_int32 (global_position_int.lon globalPositionInt) / 1e7)%float;
       lat := (Double.of_int32 (global_position_int.lat globalPositionInt) / 1e7)%float;
       alt := (Double.of_int32 (global_position_int.alt globalPositionInt) / 1000)%float;
       time := elapsed c;
       speed := _lastSpeed c |} in
  appendUnlessRepeated logItem c.

(** [UTMConverter::_newMavlinkMessage].  The parameter is a [qint64]; the
    members it is stored in are unsigned, so the stored value is its residue
    modulo [2^64]. *)
Definition _newMavlinkMessage (curTimeUSecs : Z) (message : mavlink_message_t)
    (c : UTMConverter) : UTMConverter :=
  let c := if _startDTG c =? 0 then set_startDTG (wrap64 curTimeUSecs) c else c in
  let c := set_curTimeUSecs (wrap64 curTimeUSecs) c in
  match message with
  | MAVLINK_MSG_ID_GPS_RAW_INT gpsRawInt => _handleGpsRawInt gpsRawInt c
  | MAVLINK_MSG_ID_GLOBAL_POSITION_INT globalPositionInt =>
      _handleGlobalPositionInt globalPositionInt c
  | MAVLINK_MSG_ID_VFR_HUD vfrHud => _handleVfrHud vfrHud c
  | MAVLINK_MSG_ID_other _ => c
  end.

(** The converter after a sequence of (timestamp, message) pairs, the
    reduction that the read loop of [convertTelemetryFile] performs. *)
Definition feed (c : UTMConverter) (messages : list (Z * mavlink_message_t)) : UTMConverter :=
  fold_left (fun c tm => _newMavlinkMessage (fst tm) (snd tm) c) messages c.

End Converter.

(** ** Reading the log and writing the track *)

Module Pipeline.

Import Int Endian Timestamp Mavlink Converter.

(** What a [write] call on the destination file is given.  The text that
    [sprintf] and [QDateTime::toString] produce is not modelled: a chunk
    names the constant or the data that the text is made from. *)
Inductive Chunk :=
| kLoggingHeader
| itemLine (logItem : UTM_LogItem) (isLast : bool)
| kLoggingKeys
| startDtgLine (msecsSinceEpoch : Z)
| kLoggingFooter (dstFilename : String.string).

(** The calls made on a [QFile], in order. *)
Inductive FileOp :=
| f_open (opened : bool)
| f_write (data : Chunk)
| f_close
| f_remove.

Section Reader.

Variable host : ByteOrder.
Variable beyond : nat -> byte.

(** The reading of [QDateTime::currentMSecsSinceEpoch()] at its n-th call. *)
Variable clock : nat -> Z.

(** The parser state that the MAVLink library keeps for a channel, and
    [mavlink_parse_char]: the next state, and the message when the byte
    completes one. *)
Variable Channel : Type.
Variable mavlink_parse_char : Channel -> byte -> Channel * option mavlink_message_t.

(** The content of a [mavlink_message_t] local that nothing has written. *)
Variable indeterminate : mavlink_message_t.

(** [_logFile] once opened: the bytes not read yet, with the state of the
    channel's parser and the number of clock readings taken so far. *)
Record Reader := mkReader {
  unread : list byte;
  channel : Channel;
  ticks : nat
}.

(** The loop of [_readNextMavlinkMessage] over the unread bytes. *)
Fixpoint readBytes (bytes : list byte) (ch : Channel) (n : nat)
    (message : mavlink_message_t) : Z * mavlink_message_t * Reader :=
  match bytes with
  | [] => (0, message, mkReader [] ch n)
  | nextByte :: rest =>
      match mavlink_parse_char ch nextByte with
      | (ch', Some received) =>
          let rawTime := firstn TIMESTAMP_SIZE rest in
          (_parseTimestamp host beyond (clock n) rawTime,
           received,
           mkReader (skipn TIMESTAMP_SIZE rest) ch' (S n))
      | (ch', None) => readBytes rest ch' n message
      end
  end.

(** The channel after bytes that complete no message; [None] when one of
    them completes a message. *)
Fixpoint silent (ch : Channel) (bytes : list byte) : option Channel :=
  match bytes with
  | [] => Some ch
  | nextByte :: rest =>
      match mavlink_parse_char ch nextByte with
      | (ch', None) => silent ch' rest
      | (_, Some _) => None
      end
  end.

(** [UTMConverter::_readNextMavlinkMessage]: the returned [quint64], the
    message buffer and the reader afterwards. *)
Definition _readNextMavlinkMessage (message : mavlink_message_t) (r : Reader)
    : Z * mavlink_message_t * Reader :=
  readBytes (unread r) (channel r) (ticks r) message.

(** The [while(true)] loop of [convertTelemetryFile]; [fuel] bounds the
    number of iterations. *)
Fixpoint parseLog (fuel : nat) (c : UTMConverter) (r : Reader)
    : option (UTMConverter * Reader) :=
  match fuel with
  | O => None
  | S fuel' =>
      let '(ret, message, r') := _readNextMavlinkMessage indeterminate r in
      let nextTimeUSecs := to_qint64 ret in
      if nextTimeUSecs =? 0 then Some (c, r')
      else
        let c := _newMavlinkMessage (to_qint64 (_curTimeUSecs c)) message c in
        let c := set_curTimeUSecs (wrap64 nextTimeUSecs) c in
        parseLog fuel' c r'
  end.

(** The [for] loop writing one line per log item, from index [i] on. *)
Fixpoint writeItems (items : list UTM_LogItem) (i total : nat) : list FileOp :=
  match items with
  | [] => []
  | logItem :: rest =>
      f_write (itemLine logItem (negb (Nat.ltb i (total - 1))))
      :: writeItems rest (S i) total
  end.

(** The "Write UTM File" block. *)
Definition writeTrack (dstFilename : String.string) (c : UTMConverter) : list FileOp :=
  if negb (Nat.eqb (size c) 0) then
    [f_write kLoggingHeader]
    ++ writeItems (_logItems c) 0 (size c)
    ++ [f_write kLoggingKeys;
        f_write (startDtgLine (to_qint64 (_startDTG c / 1000)));
        f_write (kLoggingFooter dstFilename)]
  else [].

(** What a call of [convertTelemetryFile] leaves behind. *)
Record Outcome := mkOutcome {
  returned : bool;
  converter : UTMConverter;
  logFileOps : list FileOp;
  utmLogFileOps : list FileOp;
  reader : option Reader
}.

(** [UTMConverter::convertTelemetryFile].  [reserved] is what
    [_reserveMavlinkChannel()] has to offer ([0]: no channel), [source] the
    content of the source file when it can be opened, [dstOpens] whether
    the destination can be opened for writing.  The result is [None] when
    the read loop is cut short by its fuel. *)
Definition convertTelemetryFile (reserved : Z) (source : option (list byte))
    (dstOpens : bool) (dstFilename : String.string)
    (ch : Channel) (n : nat) (c : UTMConverter) : option Outcome :=
  let c := if _mavlinkChannel c =? 0 then set_mavlinkChannel reserved c else c in
  if _mavlinkChannel c =? 0 then Some (mkOutcome false c [] [] None)
  else
    match source with
    | None => Some (mkOutcome false c [f_open false] [] None)
    | Some content =>
        if negb dstOpens
        then Some (mkOutcome false c [f_open true; f_close] [f_open false] None)
        else
          let timestamp := firstn TIMESTAMP_SIZE content in
          let c := set_curTimeUSecs (_parseTimestamp host beyond (clock n) timestamp) c in
          let r := mkReader (skipn TIMESTAMP_SIZE content) ch (S n) in
          match parseLog (S (List.length (unread r))) c r with
          | None => None
          | Some (c, r) =>
              Some (mkOutcome true c [f_open true]
                      ([f_open true]
                       ++ writeTrack dstFilename c
                       ++ [f_close]
                       ++ (if Nat.eqb (size c) 0 then [f_remove] else []))
                      (Some r))
          end
    end.

End Reader.

Arguments mkReader {Channel} _ _ _.
Arguments unread {Channel} _.
Arguments channel {Channel} _.
Arguments ticks {Channel} _.
Arguments mkOutcome {Channel} _ _ _ _ _.
Arguments returned {Channel} _.
Arguments converter {Channel} _.
Arguments logFileOps {Channel} _.
Arguments utmLogFileOps {Channel} _.
Arguments reader {Channel} _.

End Pipeline.

(** ** Notions used to state the properties *)

Module Spec.

Import Int Mavlink Converter.

(** The sample that a raw GPS fix stands for, in the words of the
    specification: the fix's latitude, divided by 1e7, in both the longitude
    and the latitude field, the altitude divided by 1000, the time elapsed
    from the start of the track to the message in seconds, and the last
    observed speed. *)
Definition fixSample (timestamp start : Z) (lastSpeed : float)
    (gpsFix : gps_raw_int.t) : UTM_LogItem :=
  {| time := (Double.of_u64 (wrap64 (timestamp - start)) / 1000000)%float;
     lon := (Double.of_int32 (gps_raw_int.lat gpsFix) / 1e7)%float;
     lat := (Double.of_int32 (gps_raw_int.lat gpsFix) / 1e7)%float;
     alt := (Double.of_int32 (gps_raw_int.alt gpsFix) / 1000)%float;
     speed := lastSpeed |}.

(** The sample that a global position estimate stands for: longitude and
    latitude divided by 1e7, altitude divided by 1000, elapsed seconds and
    the last observed speed. *)
Definition positionSample (timestamp start : Z) (lastSpeed : float)
    (position : global_position_int.t) : UTM_LogItem :=
  {| time := (Double.of_u64 (wrap64 (timestamp - start)) / 1000000)%float;
     lon := (Double.of_int32 (global_position_int.lon position) / 1e7)%float;
     lat := (Double.of_int32 (global_position_int.lat position) / 1e7)%float;
     alt := (Double.of_int32 (global_position_int.alt position) / 1000)%float;
     speed := lastSpeed |}.

(** The track start that a message with timestamp [timestamp] leaves: an
    unset (zero) start takes the timestamp. *)
Definition startAfter (timestamp : Z) (c : UTMConverter) : Z :=
  if _startDTG c =? 0 then wrap64 timestamp else _startDTG c.

(** No item of the track compares equal, by [_compareItem], to the item
    that follows it. *)
Fixpoint noRepeats (items : list UTM_LogItem) : bool :=
  match items with
  | a :: (b :: _) as rest => negb (_compareItem a b) && noRepeats rest
  | _ => true
  end.

(** [item] would repeat the last item of [items]: the list is not empty and
    [_compareItem] finds its last item equal to [item]. *)
Definition repeatsLast (items : list UTM_LogItem) (item : UTM_LogItem) : bool :=
  match items with
  | [] => false
  | _ :: _ => _compareItem (last items item) item
  end.

(** The four compared fields of two items are the same values. *)
Definition sameTuple (a b : UTM_LogItem) : Prop :=
  lon a = lon b /\ lat a = lat b /\ alt a = alt b /\ speed a = speed b.

(** The four compared fields of an item are numbers. *)
Definition numeric (a : UTM_LogItem) : bool :=
  negb (PrimFloat.is_nan (lon a)) && negb (PrimFloat.is_nan (lat a))
  && negb (PrimFloat.is_nan (alt a)) && negb (PrimFloat.is_nan (speed a)).

(** What every message preserves: the track has no repeats, its items are
    made of numbers, and so is the last speed. *)
Definition settled (c : UTMConverter) : Prop :=
  noRepeats (_logItems c) = true
  /\ forallb numeric (_logItems c) = true
  /\ PrimFloat.is_nan (_lastSpeed c) = false.

(** A message that yields a sample on a converter that has seen no message
    yet: a global position estimate, or a raw fix with a 3D lock. *)
Definition positionBearing (message : mavlink_message_t) : bool :=
  match message with
  | MAVLINK_MSG_ID_GLOBAL_POSITION_INT _ => true
  | MAVLINK_MSG_ID_GPS_RAW_INT gpsFix =>
      gps_raw_int.fix_type gpsFix >=? GPS_FIX_TYPE_3D_FIX
  | _ => false
  end.

End Spec.

(** ** The end of a converter, and further notions *)

Module Lifetime.

Import Int Mavlink Converter.

(** [UTMConverter::~UTMConverter()]: the channel handed back to the link
    manager by [_freeMavlinkChannel], if one is held, and the object with
    its channel cleared. *)
Definition UTMConverter_delete (c : UTMConverter) : option Z * UTMConverter :=
  if negb (_mavlinkChannel c =? 0)
  then (Some (_mavlinkChannel c), set_mavlinkChannel 0 c)
  else (None, c).

End Lifetime.

Module Notions.

Import Int Mavlink Converter Spec.

Definition isGlobalPosition (message : mavlink_message_t) : bool :=
  match message with
  | MAVLINK_MSG_ID_GLOBAL_POSITION_INT _ => true
  | _ => false
  end.

(** A message of one of the two kinds that can yield a sample. *)
Definition isPosition (message : mavlink_message_t) : bool :=
  match message with
  | MAVLINK_MSG_ID_GLOBAL_POSITION_INT _ => true
  | MAVLINK_MSG_ID_GPS_RAW_INT _ => true
  | _ => false
  end.

(** The ground speed of the last speed report of a sequence, zero standing
    for a report that is not a number, or [speed] when there is none. *)
Definition speedAfter (speed : float) (messages : list (Z * mavlink_message_t)) : float :=
  fold_left
    (fun sp tm =>
       match snd tm with
       | MAVLINK_MSG_ID_VFR_HUD v =>
           if PrimFloat.is_nan (vfr_hud.groundspeed v) then 0%float
           else vfr_hud.groundspeed v
       | _ => sp
       end)
    messages speed.

(** All five fields of an item are numbers. *)
Definition allNumbers (a : UTM_LogItem) : bool :=
  negb (PrimFloat.is_nan (time a)) && numeric a.

(** The messages of a log paired with the timestamps they are processed
    with: each record is a message and the timestamp read behind it, and a
    message is processed with the timestamp read before it. *)
Fixpoint attributed (cur : Z) (records : list (mavlink_message_t * Z))
    : list (Z * mavlink_message_t) :=
  match records with
  | [] => []
  | (m, next) :: rest => (to_qint64 cur, m) :: attributed next rest
  end.

(** The timestamp behind the last record, or [cur] when there is none. *)
Fixpoint lastTime (cur : Z) (records : list (mavlink_message_t * Z)) : Z :=
  match records with
  | [] => cur
  | (_, next) :: rest => lastTime next rest
  end.

End Notions.

(** ** Successive reads of a log *)

Module Replay.

Import Int Endian Timestamp Mavlink Converter Pipeline.

Section Reads.

Variable host : ByteOrder.
Variable beyond : nat -> byte.
Variable clock : nat -> Z.
Variable Channel : Type.
Variable mavlink_parse_char : Channel -> byte -> Channel * option mavlink_message_t.
Variable indeterminate : mavlink_message_t.

(** Successive calls of [_readNextMavlinkMessage] from the reader [r]
    return the records [records], each a message and a timestamp other than
    zero, and leave the reader [rEnd]. *)
Fixpoint reads (r : Reader Channel) (records : list (mavlink_message_t * Z))
    (rEnd : Reader Channel) : Prop :=
  match records with
  | [] => r = rEnd
  | (m, t) :: rest =>
      exists r1,
        _readNextMavlinkMessage host beyond clock Channel mavlink_parse_char
          indeterminate r = (t, m, r1)
        /\ t <> 0
        /\ reads r1 rest rEnd
  end.

End Reads.

End Replay.

(** ** A small log format for worked examples *)

Module Fixture.

Import Endian Mavlink Converter.
Import String.

Definition position : global_position_int.t :=
  global_position_int.mk 377654320 (-1223456780) 100000.

Definition lock3D : gps_raw_int.t :=
  gps_raw_int.mk 3 377654320 (-1223456780) 100000.

Definition speedReport : vfr_hud.t := vfr_hud.mk 5.5%float.

(** A framing with one-byte messages: [0x01] is a global position, [0x02]
    a raw fix, [0x03] a speed report, any other byte belongs to no
    message.  The parser has no state to keep. *)
Definition parse_char (ch : unit) (b : byte) : unit * option mavlink_message_t :=
  (ch,
   match b with
   | Byte.x01 => Some (MAVLINK_MSG_ID_GLOBAL_POSITION_INT position)
   | Byte.x02 => Some (MAVLINK_MSG_ID_GPS_RAW_INT lock3D)
   | Byte.x03 => Some (MAVLINK_MSG_ID_VFR_HUD speedReport)
   | _ => None
   end).

(** Memory behind a short read that holds zeros. *)
Definition zeros : nat -> byte := fun _ => Byte.x00.

(** A clock that advances one millisecond per reading. *)
Definition clock (n : nat) : Z := 1700000000000 + Z.of_nat n.

Definition unwritten : mavlink_message_t := MAVLINK_MSG_ID_other 0.

(** Timestamps of 1 s and of 0, big endian. *)
Definition oneSecond : list byte :=
  [Byte.x00; Byte.x00; Byte.x00; Byte.x00; Byte.x00; Byte.x0f; Byte.x42; Byte.x40].

Definition zeroTime : list byte :=
  [Byte.x00; Byte.x00; Byte.x00; Byte.x00; Byte.x00; Byte.x00; Byte.x00; Byte.x00].

(** Timestamps of 5 and of 9 microseconds. *)
Definition fiveMicros : list byte :=
  [Byte.x00; Byte.x00; Byte.x00; Byte.x00; Byte.x00; Byte.x00; Byte.x00; Byte.x05].

Definition nineMicros : list byte :=
  [Byte.x00; Byte.x00; Byte.x00; Byte.x00; Byte.x00; Byte.x00; Byte.x00; Byte.x09].

Definition destination : String.string := "/x/y/flight_007.json"%string.

Definition convert :=
  Pipeline.convertTelemetryFile LittleEndian zeros clock unit parse_char unwritten.

End Fixture.

(** ** A converter in use, for worked examples *)

Module Reuse.

Import Mavlink Converter Fixture.

(** A clock reading, in milliseconds. *)
Definition now : Z := 1700000000000.

(** A converter that already holds a channel, an item and a track start. *)
Definition used : UTMConverter :=
  set_mavlinkChannel 7
    (feed UTMConverter_new [(1000000, MAVLINK_MSG_ID_GLOBAL_POSITION_INT position)]).

(** A log with one speed report. *)
Definition secondLog : list byte := fiveMicros ++ [Byte.x03] ++ nineMicros.

End Reuse.

(** * Properties *)

(** ** Machine integers *)

Module IntFacts.

Import Int.

Lemma wrap64_range z : in_u64 (wrap64 z).
Proof. unfold in_u64, wrap64, two64. apply Z.mod_pos_bound. lia. Qed.

Lemma wrap64_small z : in_u64 z -> wrap64 z = z.
Proof. unfold in_u64, wrap64. intros H. now apply Z.mod_small. Qed.

Lemma wrap64_idem z : wrap64 (wrap64 z) = wrap64 z.
Proof. apply wrap64_small, wrap64_range. Qed.

Lemma wrap64_to_qint64 z : in_u64 z -> wrap64 (to_qint64 z) = z.
Proof.
  unfold in_u64, to_qint64, wrap64, two64. intros H.
  destruct (z <? 2 ^ 63).
  - now apply Z.mod_small.
  - replace (z - 2 ^ 64) with (z + (-1) * 2 ^ 64) by lia.
    rewrite Z_mod_plus_full. now apply Z.mod_small.
Qed.

Lemma to_qint64_zero z : in_u64 z -> (to_qint64 z =? 0) = (z =? 0).
Proof.
  unfold in_u64, to_qint64, two64. intros H.
  destruct (Z.ltb_spec z (2 ^ 63)); [reflexivity|].
  destruct (Z.eqb_spec (z - 2 ^ 64) 0), (Z.eqb_spec z 0); try reflexivity; lia.
Qed.

End IntFacts.

(** ** Byte order *)

Module EndianFacts.

Import Int Endian.

Lemma byte_bits_high (b : byte) i : 8 <= i -> Z.testbit (byte.unsigned b) i = false.
Proof.
  intros H. pose proof (byte.unsigned_range b) as R.
  destruct (Z.eq_dec (byte.unsigned b) 0) as [->|N]; [apply Z.testbit_0_l|].
  apply Z.bits_above_log2; [lia|].
  apply Z.log2_lt_pow2; [lia|].
  apply Z.lt_le_trans with (2 ^ 8); [lia|].
  apply Z.pow_le_mono_r; lia.
Qed.

(** Placing a byte below a value shifted by eight bits adds it. *)
Lemma lor_byte (b : byte) x :
  Z.lor (byte.unsigned b) (Z.shiftl x 8) = x * 256 + byte.unsigned b.
Proof.
  rewrite Z.or_to_plus.
  - rewrite Z.shiftl_mul_pow2 by lia. apply Z.add_comm.
  - apply Z.bits_inj'. intros i Hi.
    rewrite Z.land_spec, Z.shiftl_spec, Z.bits_0 by lia.
    destruct (Z.ltb_spec i 8).
    + rewrite (Z.testbit_neg_r x) by lia. apply andb_false_r.
    + now rewrite byte_bits_high by lia.
Qed.

Lemma le_value_rev bs : le_value (rev bs) = be_value bs.
Proof.
  unfold be_value.
  induction bs as [|b l IH] using rev_ind; [reflexivity|].
  rewrite rev_app_distr, fold_left_app. cbn [rev app le_value fold_left].
  now rewrite lor_byte, IH.
Qed.

Lemma be_value_rev bs : be_value (rev bs) = le_value bs.
Proof. now rewrite <- le_value_rev, rev_involutive. Qed.

Lemma be_value_bound bs : 0 <= be_value bs < 256 ^ Z.of_nat (List.length bs).
Proof.
  unfold be_value.
  induction bs as [|b l IH] using rev_ind; [cbn; lia|].
  rewrite fold_left_app, length_app. cbn [fold_left List.length].
  rewrite Nat2Z.inj_add, Z.pow_add_r by lia. change (256 ^ Z.of_nat 1) with 256.
  pose proof (byte.unsigned_range b). nia.
Qed.

(** Bit [i] of a little-endian value is bit [i mod 8] of byte [i / 8]. *)
Lemma le_value_bits bs i :
  0 <= i ->
  Z.testbit (le_value bs) i =
  Z.testbit (byte.unsigned (nth (Z.to_nat (i / 8)) bs Byte.x00)) (i mod 8).
Proof.
  revert i. induction bs as [|b bs IH]; intros i Hi.
  - cbn [le_value]. destruct (Z.to_nat (i / 8)); cbn; now rewrite !Z.testbit_0_l.
  - cbn [le_value]. rewrite Z.lor_spec, Z.shiftl_spec by lia.
    destruct (Z.ltb_spec i 8) as [L|G].
    + rewrite (Z.testbit_neg_r _ (i - 8)) by lia. rewrite orb_false_r.
      rewrite Z.div_small, Z.mod_small by lia. reflexivity.
    + rewrite byte_bits_high by lia. cbn [orb]. rewrite IH by lia.
      replace i with ((i - 8) + 1 * 8) at 3 4 by lia.
      rewrite Z.div_add, Z_mod_plus_full by lia.
      assert (0 <= (i - 8) / 8) by (apply Z.div_pos; lia).
      rewrite Z2Nat.inj_add by lia. rewrite Nat.add_comm. reflexivity.
Qed.

Lemma mask_bits k i :
  0 <= k -> Z.testbit (Z.shiftl 255 k) i = (k <=? i) && (i <? k + 8).
Proof.
  intros Hk. change 255 with (Z.ones 8).
  rewrite Z.shiftl_spec', Z.testbit_ones by lia.
  destruct (Z.ltb_spec i 0), (Z.leb_spec k i), (Z.leb_spec 0 (i - k)),
    (Z.ltb_spec (i - k) 8), (Z.ltb_spec i (k + 8)); cbn; try reflexivity; lia.
Qed.

(** Settles every integer comparison of the goal that linear arithmetic
    decides. *)
Ltac decide_cmp :=
  repeat match goal with
  | |- context [?a <? ?b] =>
      first [ rewrite (proj2 (Z.ltb_lt a b)) by lia
            | rewrite (proj2 (Z.ltb_ge a b)) by lia ]
  | |- context [?a <=? ?b] =>
      first [ rewrite (proj2 (Z.leb_le a b)) by lia
            | rewrite (proj2 (Z.leb_gt a b)) by lia ]
  end.

(** Writes the eight masks of [qbswap] as shifted bytes and pushes
    [Z.testbit] through the expression. *)
Ltac qbswap_testbits :=
  unfold qbswap;
  change 0x00000000000000ff with (Z.shiftl 255 0);
  change 0x000000000000ff00 with (Z.shiftl 255 8);
  change 0x0000000000ff0000 with (Z.shiftl 255 16);
  change 0x00000000ff000000 with (Z.shiftl 255 24);
  change 0x000000ff00000000 with (Z.shiftl 255 32);
  change 0x0000ff0000000000 with (Z.shiftl 255 40);
  change 0x00ff000000000000 with (Z.shiftl 255 48);
  change 0xff00000000000000 with (Z.shiftl 255 56);
  repeat rewrite ?Z.lor_spec, ?Z.land_spec, ?mask_bits by lia;
  repeat rewrite ?mask_bits, ?Z.shiftl_spec', ?Z.shiftr_spec', ?Z.land_spec by lia.

(** Bit [i] of the swapped value is the bit of the same rank in the
    mirrored byte. *)
Lemma qbswap_bits x i :
  0 <= i < 64 ->
  Z.testbit (qbswap x) i = Z.testbit x (i + 56 - 16 * (i / 8)).
Proof.
  intros Hi. qbswap_testbits.
  assert (J : 0 <= i / 8 < 8)
    by (split; [apply Z.div_pos; lia | apply Z.div_lt_upper_bound; lia]).
  pose proof (Z.div_mod i 8 ltac:(lia)) as D.
  pose proof (Z.mod_pos_bound i 8 ltac:(lia)) as M.
  assert (C : i / 8 = 0 \/ i / 8 = 1 \/ i / 8 = 2 \/ i / 8 = 3 \/
              i / 8 = 4 \/ i / 8 = 5 \/ i / 8 = 6 \/ i / 8 = 7) by lia.
  destruct C as [C|[C|[C|[C|[C|[C|[C|C]]]]]]]; rewrite C in *;
    decide_cmp; cbn [negb andb orb];
    rewrite ?andb_false_r, ?andb_true_r, ?orb_false_r; cbn [orb];
    f_equal; lia.
Qed.

Lemma qbswap_bits_high x i : 64 <= i -> Z.testbit (qbswap x) i = false.
Proof.
  intros Hi. qbswap_testbits.
  decide_cmp. cbn [negb andb orb]. now rewrite ?andb_false_r.
Qed.

(** Swapping the value of eight bytes gives the value of the bytes in
    reverse order. *)
Lemma qbswap_le_value bs :
  List.length bs = 8%nat -> qbswap (le_value bs) = le_value (rev bs).
Proof.
  intros L. apply Z.bits_inj'. intros i Hi.
  destruct (Z.ltb_spec i 64) as [Lt|Ge].
  - assert (J : 0 <= i / 8 < 8)
      by (split; [apply Z.div_pos; lia | apply Z.div_lt_upper_bound; lia]).
    pose proof (Z.div_mod i 8 ltac:(lia)) as D.
    pose proof (Z.mod_pos_bound i 8 ltac:(lia)) as M.
    rewrite qbswap_bits, !le_value_bits by lia.
    replace (i + 56 - 16 * (i / 8)) with (i + (7 - 2 * (i / 8)) * 8) by lia.
    rewrite Z.div_add, Z_mod_plus_full by lia.
    rewrite rev_nth by (rewrite L; lia). rewrite L.
    do 2 f_equal. f_equal. lia.
  - rewrite qbswap_bits_high by lia. rewrite le_value_bits by lia.
    rewrite nth_overflow; [symmetry; apply Z.testbit_0_l|].
    rewrite length_rev, L.
    assert (8 <= i / 8) by (apply Z.div_le_lower_bound; lia). lia.
Qed.

Lemma qbswap_be_value bs :
  List.length bs = 8%nat -> qbswap (be_value bs) = be_value (rev bs).
Proof.
  intros L. rewrite <- le_value_rev, qbswap_le_value by now rewrite length_rev.
  now rewrite rev_involutive, be_value_rev.
Qed.

(** On either kind of host, loading eight bytes and converting from big
    endian yields the big-endian value of the bytes. *)
Lemma qFromBigEndian_load host bs :
  List.length bs = 8%nat -> qFromBigEndian host (load_u64 host bs) = be_value bs.
Proof.
  intros L. destruct host; cbn.
  - now rewrite qbswap_le_value, le_value_rev.
  - apply le_value_rev.
Qed.

End EndianFacts.

(** ** Timestamp decoding *)

Module TimestampFacts.

Import Int Endian Timestamp IntFacts EndianFacts.

Lemma constData8_exact beyond bytes :
  List.length bytes = 8%nat -> constData8 beyond bytes = bytes.
Proof.
  intros L.
  do 9 (destruct bytes as [|? bytes]; try discriminate L).
  reflexivity.
Qed.

Lemma currentTimestamp_usecs nowMSecs :
  0 <= nowMSecs -> nowMSecs * 1000 < 2 ^ 64 ->
  currentTimestamp nowMSecs = nowMSecs * 1000.
Proof.
  intros H0 H1. unfold currentTimestamp.
  rewrite (wrap64_small nowMSecs) by (unfold in_u64, two64; lia).
  apply wrap64_small. unfold in_u64, two64. lia.
Qed.

(** C4: for an 8-byte input the decoder reads the bytes as a big-endian
    unsigned 64-bit integer [t], on a host of either byte order; it returns
    the byte-swapped [t], which is the value of the bytes in reverse order,
    when [t] is greater than the clock reading in microseconds, and [t]
    itself otherwise.  The result is always a 64-bit value: there is no
    failing case.  The clock reading is the milliseconds since the epoch
    times 1000 for every time that fits 64 bits. *)
Theorem parseTimestamp_decodes host beyond nowMSecs bytes :
  List.length bytes = 8%nat ->
  let t := be_value bytes in
  _parseTimestamp host beyond nowMSecs bytes
    = (if t >? currentTimestamp nowMSecs then qbswap t else t)
  /\ qbswap t = be_value (rev bytes)
  /\ in_u64 t
  /\ in_u64 (_parseTimestamp host beyond nowMSecs bytes)
  /\ (0 <= nowMSecs -> nowMSecs * 1000 < 2 ^ 64 ->
      currentTimestamp nowMSecs = nowMSecs * 1000).
Proof.
  intros L t.
  assert (E : _parseTimestamp host beyond nowMSecs bytes
              = (if t >? currentTimestamp nowMSecs then qbswap t else t)).
  { unfold _parseTimestamp. rewrite constData8_exact by assumption.
    now rewrite qFromBigEndian_load by assumption. }
  assert (B : forall bs, List.length bs = 8%nat -> in_u64 (be_value bs)).
  { intros bs Lbs. pose proof (be_value_bound bs) as Hb. rewrite Lbs in Hb.
    exact Hb. }
  split; [exact E|]. split; [now apply qbswap_be_value|].
  split; [exact (B bytes L)|]. split; [|intros; now apply currentTimestamp_usecs].
  rewrite E. destruct (t >? currentTimestamp nowMSecs); [|exact (B bytes L)].
  unfold t. rewrite qbswap_be_value by assumption.
  apply B. now rewrite length_rev.
Qed.

End TimestampFacts.

(** ** Floating-point values that are numbers *)

Module DoubleFacts.

Lemma SFcompare_refl x : x <> S754_nan -> SFcompare x x = Some Eq.
Proof.
  destruct x as [s|s| |s m e]; intros H; try congruence; cbn.
  - reflexivity.
  - now destruct s.
  - destruct s; rewrite Z.compare_refl; fold (Pos.compare m m);
      now rewrite Pos.compare_refl.
Qed.

Lemma is_nan_false x : Prim2SF x <> S754_nan -> PrimFloat.is_nan x = false.
Proof.
  intros H. unfold PrimFloat.is_nan. rewrite FloatAxioms.eqb_spec. unfold SFeqb.
  now rewrite SFcompare_refl.
Qed.

(** A number is equal to itself. *)
Lemma eqb_refl x : PrimFloat.is_nan x = false -> PrimFloat.eqb x x = true.
Proof. unfold PrimFloat.is_nan. now destruct (PrimFloat.eqb x x). Qed.

Section Round.

Variables prec emax : Z.

Lemma shr_1_nonneg mrs : 0 <= shr_m mrs -> 0 <= shr_m (shr_1 mrs).
Proof.
  destruct mrs as [m r s]. cbn.
  destruct m as [|p|p]; [| destruct p | lia]; cbn; lia.
Qed.

Lemma iter_shr_1_nonneg p :
  forall mrs, 0 <= shr_m mrs -> 0 <= shr_m (iter_pos shr_1 p mrs).
Proof. induction p; intros mrs H; cbn; auto using shr_1_nonneg. Qed.

Lemma shr_record_of_loc_m m l : shr_m (shr_record_of_loc m l) = m.
Proof. destruct l as [|[]]; reflexivity. Qed.

Lemma shr_fexp_nonneg m e l :
  0 <= m -> 0 <= shr_m (fst (shr_fexp prec emax m e l)).
Proof.
  intros H. unfold shr_fexp, shr.
  destruct (fexp prec emax (Zdigits2 m + e) - e); cbn [fst];
    try apply iter_shr_1_nonneg; now rewrite shr_record_of_loc_m.
Qed.

Lemma round_nearest_even_nonneg m l : 0 <= m -> 0 <= round_nearest_even m l.
Proof.
  intros H. destruct l as [|[]]; cbn; try lia. destruct (Z.even m); lia.
Qed.

(** Rounding a non-negative mantissa gives a zero, a finite number or an
    infinity. *)
Lemma binary_round_aux_not_nan s m e l :
  0 <= m -> binary_round_aux prec emax s m e l <> S754_nan.
Proof.
  intros H. unfold binary_round_aux.
  pose proof (shr_fexp_nonneg m e l H) as H1.
  destruct (shr_fexp prec emax m e l) as [mrs' e']. cbn [fst] in H1.
  pose proof (shr_fexp_nonneg _ e' loc_Exact
                (round_nearest_even_nonneg _ (loc_of_shr_record mrs') H1)) as H2.
  destruct (shr_fexp prec emax
              (round_nearest_even (shr_m mrs') (loc_of_shr_record mrs')) e' loc_Exact)
    as [mrs'' e'']. cbn [fst] in H2.
  destruct (shr_m mrs'') as [|p|p]; [discriminate| |lia].
  destruct (e'' <=? emax - prec); discriminate.
Qed.

Lemma binary_normalize_not_nan m e sz :
  0 <= m -> binary_normalize prec emax m e sz <> S754_nan.
Proof.
  intros H. destruct m as [|p|p]; cbn; [discriminate| |lia].
  unfold binary_round. destruct (shl_align _ _ _) as [mz ez].
  apply binary_round_aux_not_nan. lia.
Qed.

Lemma SFdiv_not_nan x sy my ey :
  x <> S754_nan -> SFdiv prec emax x (S754_finite sy my ey) <> S754_nan.
Proof.
  intros H. destruct x as [s|s| |s m e]; cbn; try discriminate; try congruence.
  unfold SFdiv_core_binary.
  set (m' := match _ with Z0 => _ | Zpos _ => _ | Zneg _ => _ end).
  assert (Hm : 0 <= m').
  { subst m'. destruct (_ - _ - _); try lia. apply Z.shiftl_nonneg. lia. }
  pose proof (Z.div_pos m' (Zpos my) Hm ltac:(lia)) as Q. unfold Z.div in Q.
  destruct (Z.div_eucl m' (Z.pos my)) as [q r].
  now apply binary_round_aux_not_nan.
Qed.

End Round.

Lemma of_uint63_not_nan n : Prim2SF (of_uint63 n) <> S754_nan.
Proof.
  rewrite FloatAxioms.of_uint63_spec. apply binary_normalize_not_nan.
  apply Uint63.to_Z_bounded.
Qed.

Lemma of_int32_not_nan z : Prim2SF (Double.of_int32 z) <> S754_nan.
Proof.
  unfold Double.of_int32. destruct (z <? 0).
  - rewrite FloatAxioms.opp_spec.
    pose proof (of_uint63_not_nan (Uint63.of_Z (- z))) as H.
    destruct (Prim2SF (of_uint63 (Uint63.of_Z (- z)))); cbn; congruence.
  - apply of_uint63_not_nan.
Qed.

Lemma div_finite_not_nan x y sy my ey :
  Prim2SF y = S754_finite sy my ey -> Prim2SF x <> S754_nan ->
  PrimFloat.is_nan (x / y) = false.
Proof.
  intros Hy Hx. apply is_nan_false.
  rewrite FloatAxioms.div_spec, Hy. now apply SFdiv_not_nan.
Qed.

(** A 32-bit integer scaled down by 1e7 is a number. *)
Lemma degrees_not_nan z : PrimFloat.is_nan (Double.of_int32 z / 1e7) = false.
Proof.
  eapply div_finite_not_nan; [vm_compute; reflexivity | apply of_int32_not_nan].
Qed.

(** A 32-bit integer scaled down by 1000 is a number. *)
Lemma metres_not_nan z : PrimFloat.is_nan (Double.of_int32 z / 1000) = false.
Proof.
  eapply div_finite_not_nan; [vm_compute; reflexivity | apply of_int32_not_nan].
Qed.

End DoubleFacts.

(** ** The message handlers *)

Module ConverterFacts.

Import Int Mavlink Converter Spec IntFacts DoubleFacts.

(** *** The shared tail of the position handlers *)

Lemma nth_pred_length {A} (l : list A) d : nth (List.length l - 1) l d = last l d.
Proof.
  induction l as [|a l IH]; [reflexivity|].
  destruct l as [|b l]; [reflexivity|].
  change (nth (List.length (b :: l)) (a :: b :: l) d = last (b :: l) d).
  rewrite <- IH. cbn [List.length nth]. now rewrite Nat.sub_succ, Nat.sub_0_r.
Qed.

Lemma appendUnlessRepeated_logItems item c :
  _logItems (appendUnlessRepeated item c)
  = if repeatsLast (_logItems c) item then _logItems c else _logItems c ++ [item].
Proof.
  unfold appendUnlessRepeated, repeatsLast, size, at_.
  rewrite nth_pred_length.
  destruct (_logItems c) as [|a l] eqn:E; cbn [List.length Nat.eqb negb].
  - unfold append. cbn [_logItems]. now rewrite E.
  - destruct (_compareItem (last (a :: l) item) item); cbn [negb]; [exact E|].
    unfold append. cbn [_logItems]. now rewrite E.
Qed.

Lemma appendUnlessRepeated_frame item c :
  let c' := appendUnlessRepeated item c in
  _curTimeUSecs c' = _curTimeUSecs c /\ _startDTG c' = _startDTG c
  /\ _lastSpeed c' = _lastSpeed c
  /\ _gpsRawIntMessageAvailable c' = _gpsRawIntMessageAvailable c
  /\ _globalPositionIntMessageAvailable c' = _globalPositionIntMessageAvailable c
  /\ _mavlinkChannel c' = _mavlinkChannel c.
Proof.
  unfold appendUnlessRepeated.
  destruct (negb (size c =? 0)%nat); [destruct (negb _)|]; cbn; repeat split.
Qed.

(** Unfolds a handler down to the shared tail and rewrites what the tail
    does to the fields. *)
Ltac handler_fields :=
  cbn [_curTimeUSecs _startDTG _lastSpeed _gpsRawIntMessageAvailable
       _globalPositionIntMessageAvailable _mavlinkChannel _logItems
       set_curTimeUSecs set_startDTG set_lastSpeed set_gpsRawIntMessageAvailable
       set_globalPositionIntMessageAvailable set_mavlinkChannel].

(** *** [_compareItem] *)

Lemma compareItem_fields a b :
  _compareItem a b
  = PrimFloat.eqb (lon a) (lon b) && PrimFloat.eqb (lat a) (lat b)
    && PrimFloat.eqb (alt a) (alt b) && PrimFloat.eqb (speed a) (speed b).
Proof.
  unfold _compareItem, neq.
  destruct (PrimFloat.eqb (lon a) (lon b)), (PrimFloat.eqb (lat a) (lat b)),
    (PrimFloat.eqb (alt a) (alt b)), (PrimFloat.eqb (speed a) (speed b)); reflexivity.
Qed.

Lemma compareItem_time t1 t2 t1' t2' lo la al sp lo' la' al' sp' :
  _compareItem (mkItem t1 lo la al sp) (mkItem t2 lo' la' al' sp')
  = _compareItem (mkItem t1' lo la al sp) (mkItem t2' lo' la' al' sp').
Proof. now rewrite !compareItem_fields. Qed.

Lemma compareItem_same a b :
  numeric a = true -> sameTuple a b -> _compareItem a b = true.
Proof.
  unfold numeric, sameTuple. intros N (E1 & E2 & E3 & E4).
  rewrite compareItem_fields, <- E1, <- E2, <- E3, <- E4.
  apply andb_prop in N as [N N4]. apply andb_prop in N as [N N3].
  apply andb_prop in N as [N1 N2].
  rewrite !eqb_refl; [reflexivity|..]; now apply negb_true_iff.
Qed.

(** *** The priority flag *)

Lemma handleGpsRawInt_flag g c :
  _globalPositionIntMessageAvailable (_handleGpsRawInt g c)
  = _globalPositionIntMessageAvailable c.
Proof.
  unfold _handleGpsRawInt.
  destruct (negb _); [destruct (_ >=? _)|]; try reflexivity.
  now rewrite (proj1 (proj2 (proj2 (proj2 (proj2 (appendUnlessRepeated_frame _ _)))))).
Qed.

Lemma newMavlinkMessage_flag t m c :
  _globalPositionIntMessageAvailable c = true ->
  _globalPositionIntMessageAvailable (_newMavlinkMessage t m c) = true.
Proof.
  intros H. unfold _newMavlinkMessage.
  set (c1 := set_curTimeUSecs _ _).
  assert (H1 : _globalPositionIntMessageAvailable c1 = true).
  { subst c1. destruct (_startDTG c =? 0); exact H. }
  destruct m as [g|g|v|id]; try exact H1.
  - now rewrite handleGpsRawInt_flag.
  - unfold _handleGlobalPositionInt.
    now rewrite (proj1 (proj2 (proj2 (proj2 (proj2 (appendUnlessRepeated_frame _ _)))))).
Qed.

Lemma feed_flag messages : forall c,
  _globalPositionIntMessageAvailable c = true ->
  _globalPositionIntMessageAvailable (feed c messages) = true.
Proof.
  induction messages as [|[t m] rest IH]; intros c H; [exact H|].
  apply IH. now apply newMavlinkMessage_flag.
Qed.

Lemma feed_app c xs ys : feed c (xs ++ ys) = feed (feed c xs) ys.
Proof. apply fold_left_app. Qed.

Lemma globalPositionInt_sets_flag t g c :
  _globalPositionIntMessageAvailable
    (_newMavlinkMessage t (MAVLINK_MSG_ID_GLOBAL_POSITION_INT g) c) = true.
Proof.
  unfold _newMavlinkMessage, _handleGlobalPositionInt.
  now rewrite (proj1 (proj2 (proj2 (proj2 (proj2 (appendUnlessRepeated_frame _ _)))))).
Qed.

Lemma gpsRawInt_suppressed t r c :
  _globalPositionIntMessageAvailable c = true ->
  _logItems (_newMavlinkMessage t (MAVLINK_MSG_ID_GPS_RAW_INT r) c) = _logItems c.
Proof.
  intros H. unfold _newMavlinkMessage, _handleGpsRawInt.
  destruct (_startDTG c =? 0); handler_fields; rewrite H; reflexivity.
Qed.

(** The flag is clear as long as no global position estimate has come. *)
Lemma feed_flag_clear messages : forall c,
  _globalPositionIntMessageAvailable c = false ->
  forallb (fun tm => match snd tm with
                     | MAVLINK_MSG_ID_GLOBAL_POSITION_INT _ => false
                     | _ => true
                     end) messages = true ->
  _globalPositionIntMessageAvailable (feed c messages) = false.
Proof.
  induction messages as [|[t m] rest IH]; intros c H A; [exact H|].
  cbn [forallb snd] in A. apply andb_prop in A as [A1 A2].
  cbn [feed fold_left fst snd]. apply IH; [|exact A2].
  unfold _newMavlinkMessage. set (c1 := set_curTimeUSecs _ _).
  assert (H1 : _globalPositionIntMessageAvailable c1 = false)
    by (subst c1; destruct (_startDTG c =? 0); exact H).
  destruct m as [g|g|v|id]; try exact H1; [|discriminate A1].
  now rewrite handleGpsRawInt_flag.
Qed.

(** *** Raw GPS fixes *)

Lemma handleGpsRawInt_sample g c :
  _globalPositionIntMessageAvailable c = false ->
  GPS_FIX_TYPE_3D_FIX <= gps_raw_int.fix_type g ->
  _handleGpsRawInt g c
  = appendUnlessRepeated
      (fixSample (_curTimeUSecs c) (_startDTG c) (_lastSpeed c) g)
      (set_gpsRawIntMessageAvailable true c).
Proof.
  intros H F. unfold _handleGpsRawInt. handler_fields. rewrite H. cbn [negb].
  rewrite (proj2 (Z.geb_le _ _) F). reflexivity.
Qed.

Lemma gpsRawInt_logItems t g c :
  _globalPositionIntMessageAvailable c = false ->
  GPS_FIX_TYPE_3D_FIX <= gps_raw_int.fix_type g ->
  let sample := fixSample (wrap64 t) (startAfter t c) (_lastSpeed c) g in
  _logItems (_newMavlinkMessage t (MAVLINK_MSG_ID_GPS_RAW_INT g) c)
  = (if repeatsLast (_logItems c) sample then _logItems c else _logItems c ++ [sample]).
Proof.
  intros H F sample. unfold _newMavlinkMessage.
  rewrite handleGpsRawInt_sample;
    [|destruct (_startDTG c =? 0); exact H | exact F].
  rewrite appendUnlessRepeated_logItems.
  subst sample. unfold startAfter.
  now destruct (_startDTG c =? 0).
Qed.

(** C1: a raw GPS fix with a 3D lock or better, processed while no global
    position estimate has been seen, makes the handler build the sample
    [fixSample]: longitude and latitude both the fix's latitude over 1e7,
    altitude the fix's altitude over 1000, elapsed seconds the message
    timestamp minus the track start over 1e6, speed the last observed speed.
    The sample is appended unless it repeats the last item; nothing else is
    ever appended.  This holds for the handler on its own and for a message
    dispatched by [_newMavlinkMessage], where the track start is the one in
    force once the message has been taken into account. *)
Theorem gpsRawInt_builds_sample t g c :
  _globalPositionIntMessageAvailable c = false ->
  GPS_FIX_TYPE_3D_FIX <= gps_raw_int.fix_type g ->
  let viaHandler := fixSample (_curTimeUSecs c) (_startDTG c) (_lastSpeed c) g in
  let viaDispatch := fixSample (wrap64 t) (startAfter t c) (_lastSpeed c) g in
  (lon viaDispatch = (Double.of_int32 (gps_raw_int.lat g) / 1e7)%float
   /\ lat viaDispatch = (Double.of_int32 (gps_raw_int.lat g) / 1e7)%float
   /\ alt viaDispatch = (Double.of_int32 (gps_raw_int.alt g) / 1000)%float
   /\ time viaDispatch
      = (Double.of_u64 (wrap64 (wrap64 t - startAfter t c)) / 1000000)%float
   /\ speed viaDispatch = _lastSpeed c)
  /\ _logItems (_handleGpsRawInt g c)
     = (if repeatsLast (_logItems c) viaHandler
        then _logItems c else _logItems c ++ [viaHandler])
  /\ _startDTG (_newMavlinkMessage t (MAVLINK_MSG_ID_GPS_RAW_INT g) c)
     = startAfter t c
  /\ _logItems (_newMavlinkMessage t (MAVLINK_MSG_ID_GPS_RAW_INT g) c)
     = (if repeatsLast (_logItems c) viaDispatch
        then _logItems c else _logItems c ++ [viaDispatch]).
Proof.
  intros H F viaHandler viaDispatch.
  split; [repeat split|]. split; [|split].
  - rewrite handleGpsRawInt_sample by assumption.
    now rewrite appendUnlessRepeated_logItems.
  - unfold _newMavlinkMessage.
    rewrite handleGpsRawInt_sample;
      [|destruct (_startDTG c =? 0); exact H | exact F].
    rewrite (proj1 (proj2 (appendUnlessRepeated_frame _ _))).
    unfold startAfter. now destruct (_startDTG c =? 0).
  - now apply gpsRawInt_logItems.
Qed.

(** *** Suppression of raw fixes *)

(** C2: once a global position estimate has been processed, at any point of
    any message sequence and from any converter, a raw GPS fix processed at
    any later point leaves the track as it is, whatever its content. *)
Theorem gpsRawInt_never_appends_after_globalPosition
    c before t g between t' r :
  let seen := feed c (before ++ (t, MAVLINK_MSG_ID_GLOBAL_POSITION_INT g) :: between) in
  _globalPositionIntMessageAvailable seen = true
  /\ _logItems (_newMavlinkMessage t' (MAVLINK_MSG_ID_GPS_RAW_INT r) seen)
     = _logItems seen.
Proof.
  intros seen.
  assert (H : _globalPositionIntMessageAvailable seen = true).
  { subst seen. rewrite feed_app. cbn [feed fold_left fst snd].
    apply feed_flag, globalPositionInt_sets_flag. }
  split; [exact H|]. now apply gpsRawInt_suppressed.
Qed.

(** *** Speed updates *)

Lemma vfrHud_fields t v c :
  let c' := _newMavlinkMessage t (MAVLINK_MSG_ID_VFR_HUD v) c in
  _lastSpeed c'
  = (if PrimFloat.is_nan (vfr_hud.groundspeed v) then 0%float
     else vfr_hud.groundspeed v)
  /\ _logItems c' = _logItems c
  /\ _globalPositionIntMessageAvailable c' = _globalPositionIntMessageAvailable c.
Proof.
  unfold _newMavlinkMessage, _handleVfrHud.
  destruct (_startDTG c =? 0); repeat split.
Qed.

(** C9: a VFR_HUD message sets [_lastSpeed] to its ground speed, or to zero
    when the ground speed is not a number, and changes neither the track nor
    the priority flag; this holds of the handler and of the message as
    dispatched by [_newMavlinkMessage]. *)
Theorem vfrHud_updates_speed_only t v c :
  let speed' :=
    if PrimFloat.is_nan (vfr_hud.groundspeed v) then 0%float
    else vfr_hud.groundspeed v in
  (_lastSpeed (_handleVfrHud v c) = speed'
   /\ _logItems (_handleVfrHud v c) = _logItems c
   /\ _globalPositionIntMessageAvailable (_handleVfrHud v c)
      = _globalPositionIntMessageAvailable c)
  /\ (let c' := _newMavlinkMessage t (MAVLINK_MSG_ID_VFR_HUD v) c in
      _lastSpeed c' = speed'
      /\ _logItems c' = _logItems c
      /\ _globalPositionIntMessageAvailable c'
         = _globalPositionIntMessageAvailable c).
Proof.
  intros speed'. split; [repeat split|]. apply vfrHud_fields.
Qed.

(** *** Deduplication *)

Lemma handleGlobalPositionInt_sample g c :
  _handleGlobalPositionInt g c
  = appendUnlessRepeated
      (positionSample (_curTimeUSecs c) (_startDTG c) (_lastSpeed c) g)
      (set_globalPositionIntMessageAvailable true c).
Proof. reflexivity. Qed.

Lemma globalPositionInt_logItems t g c :
  let sample := positionSample (wrap64 t) (startAfter t c) (_lastSpeed c) g in
  _logItems (_newMavlinkMessage t (MAVLINK_MSG_ID_GLOBAL_POSITION_INT g) c)
  = (if repeatsLast (_logItems c) sample then _logItems c else _logItems c ++ [sample]).
Proof.
  intros sample. unfold _newMavlinkMessage.
  rewrite handleGlobalPositionInt_sample, appendUnlessRepeated_logItems.
  subst sample. unfold startAfter. now destruct (_startDTG c =? 0).
Qed.

Lemma globalPositionInt_lastSpeed t g c :
  _lastSpeed (_newMavlinkMessage t (MAVLINK_MSG_ID_GLOBAL_POSITION_INT g) c)
  = _lastSpeed c.
Proof.
  unfold _newMavlinkMessage. rewrite handleGlobalPositionInt_sample.
  rewrite (proj1 (proj2 (proj2 (appendUnlessRepeated_frame _ _)))).
  now destruct (_startDTG c =? 0).
Qed.

Lemma repeatsLast_snoc l x y : repeatsLast (l ++ [x]) y = _compareItem x y.
Proof.
  unfold repeatsLast. rewrite last_last. now destruct l.
Qed.

Lemma noRepeats_snoc l x :
  noRepeats l = true -> repeatsLast l x = false -> noRepeats (l ++ [x]) = true.
Proof.
  induction l as [|a l IH]; intros N R; [reflexivity|].
  destruct l as [|b l].
  - cbn in *. now rewrite R.
  - change (negb (_compareItem a b) && noRepeats ((b :: l) ++ [x]) = true).
    change (negb (_compareItem a b) && noRepeats (b :: l) = true) in N.
    apply andb_prop in N as [N1 N2]. rewrite N1, IH; auto.
Qed.

Lemma noRepeats_nth l : forall i a b,
  noRepeats l = true ->
  nth_error l i = Some a -> nth_error l (S i) = Some b ->
  _compareItem a b = false.
Proof.
  induction l as [|x l IH]; intros i a b N Ha Hb; [destruct i; discriminate|].
  destruct l as [|y l]; [destruct i; discriminate|].
  change (negb (_compareItem x y) && noRepeats (y :: l) = true) in N.
  apply andb_prop in N as [N1 N2].
  destruct i as [|i].
  - cbn in Ha, Hb. injection Ha as <-. injection Hb as <-.
    now apply negb_true_iff.
  - apply (IH i); assumption.
Qed.

Lemma settled_new : settled UTMConverter_new.
Proof. repeat split. Qed.

Lemma settled_logItems c items :
  settled c ->
  (items = _logItems c
   \/ exists x, items = _logItems c ++ [x] /\ numeric x = true
                /\ repeatsLast (_logItems c) x = false) ->
  noRepeats items = true /\ forallb numeric items = true.
Proof.
  intros (N & F & _) [->|(x & -> & Nx & R)]; [now split|].
  split; [now apply noRepeats_snoc|].
  rewrite forallb_app, F. cbn. now rewrite Nx.
Qed.

Lemma if_repeatsLast l x :
  numeric x = true ->
  let items := if repeatsLast l x then l else l ++ [x] in
  items = l \/ exists y, items = l ++ [y] /\ numeric y = true /\ repeatsLast l y = false.
Proof.
  intros Nx items. subst items. destruct (repeatsLast l x) eqn:R; [now left|].
  right. now exists x.
Qed.

Lemma fixSample_numeric ts start sp g :
  PrimFloat.is_nan sp = false -> numeric (fixSample ts start sp g) = true.
Proof.
  intros H. unfold numeric, fixSample; cbn [lon lat alt speed].
  now rewrite !degrees_not_nan, metres_not_nan, H.
Qed.

Lemma positionSample_numeric ts start sp g :
  PrimFloat.is_nan sp = false -> numeric (positionSample ts start sp g) = true.
Proof.
  intros H. unfold numeric, positionSample; cbn [lon lat alt speed].
  now rewrite !degrees_not_nan, metres_not_nan, H.
Qed.

Lemma settled_newMavlinkMessage t m c :
  settled c -> settled (_newMavlinkMessage t m c).
Proof.
  intros S. pose proof S as (N & F & Sp).
  destruct m as [g|g|v|id].
  - assert (L : _lastSpeed (_newMavlinkMessage t (MAVLINK_MSG_ID_GPS_RAW_INT g) c)
                = _lastSpeed c).
    { unfold _newMavlinkMessage, _handleGpsRawInt.
      destruct (_startDTG c =? 0); handler_fields;
        (destruct (negb _); [destruct (_ >=? _)|]; try reflexivity);
        now rewrite (proj1 (proj2 (proj2 (appendUnlessRepeated_frame _ _)))). }
    unfold settled. rewrite L.
    destruct (_globalPositionIntMessageAvailable c) eqn:G.
    + rewrite gpsRawInt_suppressed by assumption. now repeat split.
    + destruct (Z.leb_spec GPS_FIX_TYPE_3D_FIX (gps_raw_int.fix_type g)) as [Fx|Fx].
      * rewrite (gpsRawInt_logItems t g c G Fx).
        rewrite <- and_assoc. split; [|exact Sp].
        apply (settled_logItems c); [exact S|].
        apply if_repeatsLast. now apply fixSample_numeric.
      * assert (E : _logItems (_newMavlinkMessage t (MAVLINK_MSG_ID_GPS_RAW_INT g) c)
                    = _logItems c).
        { unfold _newMavlinkMessage, _handleGpsRawInt.
          assert (Fb : (gps_raw_int.fix_type g >=? GPS_FIX_TYPE_3D_FIX) = false).
          { rewrite Z.geb_leb. apply Z.leb_gt. lia. }
          destruct (_startDTG c =? 0); handler_fields; rewrite G, Fb; reflexivity. }
        rewrite E. now repeat split.
  - unfold settled. rewrite globalPositionInt_lastSpeed, globalPositionInt_logItems.
    rewrite <- and_assoc. split; [|exact Sp].
    apply (settled_logItems c); [exact S|].
    apply if_repeatsLast. now apply positionSample_numeric.
  - pose proof (vfrHud_fields t v c) as (E1 & E2 & _).
    cbv zeta in E1, E2. unfold settled. rewrite E1, E2.
    repeat split; try assumption.
    destruct (PrimFloat.is_nan (vfr_hud.groundspeed v)) eqn:V; [reflexivity|exact V].
  - unfold _newMavlinkMessage. destruct (_startDTG c =? 0); exact S.
Qed.

Lemma settled_feed messages : forall c, settled c -> settled (feed c messages).
Proof.
  induction messages as [|[t m] rest IH]; intros c S; [exact S|].
  apply IH. now apply settled_newMavlinkMessage.
Qed.

Lemma last_default {A} (a : A) l d d' : last (a :: l) d = last (a :: l) d'.
Proof.
  revert a. induction l as [|b l IH]; intros a; [reflexivity|].
  change (last (b :: l) d = last (b :: l) d'). apply IH.
Qed.

Lemma repeatsLast_sameTuple l x y :
  sameTuple x y -> repeatsLast l x = repeatsLast l y.
Proof.
  intros (E1 & E2 & E3 & E4). destruct l as [|a l]; [reflexivity|].
  unfold repeatsLast. rewrite (last_default a l x y), !compareItem_fields.
  now rewrite E1, E2, E3, E4.
Qed.

Lemma positionSample_sameTuple ts start ts' start' sp g :
  sameTuple (positionSample ts start sp g) (positionSample ts' start' sp g).
Proof. repeat split. Qed.

(** A global position estimate that follows one with the same fields adds
    nothing. *)
Lemma globalPositionInt_twice t1 t2 g c :
  settled c ->
  let c1 := _newMavlinkMessage t1 (MAVLINK_MSG_ID_GLOBAL_POSITION_INT g) c in
  _logItems (_newMavlinkMessage t2 (MAVLINK_MSG_ID_GLOBAL_POSITION_INT g) c1)
  = _logItems c1.
Proof.
  intros (_ & _ & Sp) c1.
  rewrite globalPositionInt_logItems.
  subst c1. rewrite globalPositionInt_lastSpeed, globalPositionInt_logItems.
  set (s1 := positionSample (wrap64 t1) (startAfter t1 c) (_lastSpeed c) g).
  set (s2 := positionSample (wrap64 t2) _ (_lastSpeed c) g).
  assert (T : sameTuple s1 s2) by apply positionSample_sameTuple.
  destruct (repeatsLast (_logItems c) s1) eqn:R.
  - now rewrite <- (repeatsLast_sameTuple _ s1 s2 T), R.
  - rewrite repeatsLast_snoc, compareItem_same; auto.
    now apply positionSample_numeric.
Qed.

(** C3: in the track that any message sequence leaves, no item compares
    equal to the next one, and no two adjacent items carry the same
    (lon, lat, alt, speed) values.  The comparison does not look at the
    time field, and a sample whose four fields repeat those of the last
    item is discarded whatever its time.  A global position estimate that
    follows one with the same fields appends nothing, at any point of any
    sequence, so that two of them fed to a new converter leave exactly one
    item. *)
Theorem track_has_no_repeats messages :
  let c := feed UTMConverter_new messages in
  (forall i a b,
     nth_error (_logItems c) i = Some a ->
     nth_error (_logItems c) (S i) = Some b ->
     _compareItem a b = false /\ ~ sameTuple a b)
  /\ (forall t1 t2 t1' t2' lo la al sp lo' la' al' sp',
        _compareItem (mkItem t1 lo la al sp) (mkItem t2 lo' la' al' sp')
        = _compareItem (mkItem t1' lo la al sp) (mkItem t2' lo' la' al' sp'))
  /\ (forall items lastItem t g,
        _logItems c = items ++ [lastItem] ->
        sameTuple lastItem
          (positionSample (wrap64 t) (startAfter t c) (_lastSpeed c) g) ->
        _logItems (_newMavlinkMessage t (MAVLINK_MSG_ID_GLOBAL_POSITION_INT g) c)
        = _logItems c)
  /\ (forall items lastItem t g,
        _globalPositionIntMessageAvailable c = false ->
        GPS_FIX_TYPE_3D_FIX <= gps_raw_int.fix_type g ->
        _logItems c = items ++ [lastItem] ->
        sameTuple lastItem
          (fixSample (wrap64 t) (startAfter t c) (_lastSpeed c) g) ->
        _logItems (_newMavlinkMessage t (MAVLINK_MSG_ID_GPS_RAW_INT g) c)
        = _logItems c)
  /\ (forall t1 t2 g,
        _logItems (feed c [(t1, MAVLINK_MSG_ID_GLOBAL_POSITION_INT g);
                           (t2, MAVLINK_MSG_ID_GLOBAL_POSITION_INT g)])
        = _logItems (feed c [(t1, MAVLINK_MSG_ID_GLOBAL_POSITION_INT g)]))
  /\ (forall t1 t2 g,
        List.length
          (_logItems (feed UTMConverter_new
                        [(t1, MAVLINK_MSG_ID_GLOBAL_POSITION_INT g);
                         (t2, MAVLINK_MSG_ID_GLOBAL_POSITION_INT g)])) = 1%nat).
Proof.
  intros c.
  assert (St : settled c) by apply settled_feed, settled_new.
  pose proof St as (N & F & Sp).
  split; [|split; [|split; [|split; [|split]]]].
  - intros i a b Ha Hb.
    assert (C : _compareItem a b = false) by now apply (noRepeats_nth (_logItems c) i).
    split; [exact C|]. intros T.
    assert (Na : numeric a = true).
    { rewrite forallb_forall in F. apply F. now apply nth_error_In with i. }
    rewrite (compareItem_same a b Na T) in C. discriminate.
  - intros. apply compareItem_time.
  - intros items lastItem t g E T.
    rewrite globalPositionInt_logItems, E, repeatsLast_snoc, compareItem_same;
      [reflexivity| |exact T].
    rewrite forallb_forall in F. apply F. rewrite E. apply in_or_app. right. now left.
  - intros items lastItem t g G Fx E T.
    rewrite gpsRawInt_logItems, E, repeatsLast_snoc, compareItem_same;
      [reflexivity| |exact T|exact G|exact Fx].
    rewrite forallb_forall in F. apply F. rewrite E. apply in_or_app. right. now left.
  - intros t1 t2 g. cbn [feed fold_left fst snd].
    now apply globalPositionInt_twice.
  - intros t1 t2 g. cbn [feed fold_left fst snd].
    rewrite globalPositionInt_twice by apply settled_new.
    now rewrite globalPositionInt_logItems.
Qed.

(** The time of the current message is written before any handler reads
    it. *)
Lemma newMavlinkMessage_set_curTimeUSecs x t m c :
  _newMavlinkMessage t m (set_curTimeUSecs x c) = _newMavlinkMessage t m c.
Proof.
  destruct c as [cur start sp raw glob chan items].
  unfold _newMavlinkMessage. handler_fields.
  now destruct (start =? 0).
Qed.

(** No handler reads the channel. *)
Lemma newMavlinkMessage_set_mavlinkChannel v t m c :
  _newMavlinkMessage t m (set_mavlinkChannel v c)
  = set_mavlinkChannel v (_newMavlinkMessage t m c).
Proof.
  destruct c as [cur start sp raw glob chan items].
  unfold _newMavlinkMessage, _handleGpsRawInt, _handleGlobalPositionInt,
    _handleVfrHud, appendUnlessRepeated, append, size, at_, elapsed.
  handler_fields.
  destruct m as [g|g|v'|id]; destruct (start =? 0); handler_fields;
    repeat match goal with
           | |- context [if ?b then _ else _] => destruct b
           end; reflexivity.
Qed.

Lemma feed_set_mavlinkChannel v messages : forall c,
  feed (set_mavlinkChannel v c) messages = set_mavlinkChannel v (feed c messages).
Proof.
  induction messages as [|[t m] rest IH]; intros c; [reflexivity|].
  cbn [feed fold_left fst snd]. rewrite newMavlinkMessage_set_mavlinkChannel.
  apply IH.
Qed.

Lemma feed_set_curTimeUSecs_logItems x messages c :
  _logItems (feed (set_curTimeUSecs x c) messages) = _logItems (feed c messages).
Proof.
  destruct messages as [|[t m] rest]; [reflexivity|].
  cbn [feed fold_left fst snd]. now rewrite newMavlinkMessage_set_curTimeUSecs.
Qed.

(** *** The track only grows *)

Lemma newMavlinkMessage_grows t m c :
  exists added,
    _logItems (_newMavlinkMessage t m c) = _logItems c ++ added.
Proof.
  assert (A : forall item c0, _logItems c0 = _logItems c ->
              exists added, _logItems (appendUnlessRepeated item c0) = _logItems c ++ added).
  { intros item c0 E. rewrite appendUnlessRepeated_logItems, E.
    destruct (repeatsLast _ _); [exists []; now rewrite app_nil_r | now exists [item]]. }
  assert (K : forall c0, _logItems c0 = _logItems c ->
              exists added, _logItems c0 = _logItems c ++ added).
  { intros c0 E. exists []. now rewrite app_nil_r. }
  unfold _newMavlinkMessage.
  set (c1 := set_curTimeUSecs _ _).
  assert (E1 : _logItems c1 = _logItems c)
    by (subst c1; now destruct (_startDTG c =? 0)).
  destruct m as [g|g|v|id].
  - unfold _handleGpsRawInt. destruct (negb _); [destruct (_ >=? _)|]; auto.
  - unfold _handleGlobalPositionInt. auto.
  - unfold _handleVfrHud. auto.
  - auto.
Qed.

Lemma feed_grows messages : forall c,
  exists added, _logItems (feed c messages) = _logItems c ++ added.
Proof.
  induction messages as [|[t m] rest IH]; intros c.
  - exists []. now rewrite app_nil_r.
  - cbn [feed fold_left fst snd].
    destruct (newMavlinkMessage_grows t m c) as (a1 & E1).
    destruct (IH (_newMavlinkMessage t m c)) as (a2 & E2).
    exists (a1 ++ a2). unfold feed in E2. now rewrite E2, E1, app_assoc.
Qed.

(** *** The first sample *)

Lemma elapsed_zero z :
  (Double.of_u64 (wrap64 (z - z)) / 1000000)%float = 0%float.
Proof. rewrite Z.sub_diag. vm_compute. reflexivity. Qed.

Lemma first_message_sample t m :
  positionBearing m = true ->
  exists first,
    _logItems (_newMavlinkMessage t m UTMConverter_new) = [first]
    /\ time first = 0%float.
Proof.
  intros P. destruct m as [g|g|v|id]; try discriminate P.
  - cbn [positionBearing] in P. rewrite Z.geb_leb in P. apply Z.leb_le in P.
    rewrite gpsRawInt_logItems by (try reflexivity; exact P).
    cbn [repeatsLast _logItems UTMConverter_new app].
    eexists. split; [reflexivity|]. apply elapsed_zero.
  - rewrite globalPositionInt_logItems.
    cbn [repeatsLast _logItems UTMConverter_new app].
    eexists. split; [reflexivity|]. apply elapsed_zero.
Qed.

(** C5, as the code has it: when the first message of a sequence fed to a
    new converter is position-bearing (a global position estimate, or a raw
    fix with a 3D lock), the track is not empty and its first item has an
    elapsed time of 0.0, whatever follows. *)
Theorem first_sample_elapsed_zero t m rest :
  positionBearing m = true ->
  exists first others,
    _logItems (feed UTMConverter_new ((t, m) :: rest)) = first :: others
    /\ time first = 0%float.
Proof.
  intros P. destruct (first_message_sample t m P) as (first & E & T).
  cbn [feed fold_left fst snd].
  destruct (feed_grows rest (_newMavlinkMessage t m UTMConverter_new)) as (added & G).
  unfold feed in G. rewrite G, E. now exists first, added.
Qed.

(** C5, as stated, fails: a speed report at 1 s followed by a position at
    3 s leaves a track whose only item has an elapsed time of 2.0, counted
    from the speed report. *)
Lemma first_sample_elapsed_nonzero :
  let messages :=
    [ (1000000, MAVLINK_MSG_ID_VFR_HUD (vfr_hud.mk 5.5%float));
      (3000000, MAVLINK_MSG_ID_GLOBAL_POSITION_INT
                  (global_position_int.mk 377654320 (-1223456780) 100000)) ] in
  exists first,
    _logItems (feed UTMConverter_new messages) = [first]
    /\ time first = 2%float
    /\ PrimFloat.eqb (time first) 0 = false
    /\ time first <> 0%float.
Proof.
  eexists. split; [vm_compute; reflexivity|].
  cbn [time]. split; [reflexivity|]. split; [reflexivity|].
  intros H. apply (f_equal (fun x => PrimFloat.eqb x 0)) in H.
  vm_compute in H. discriminate H.
Qed.

(** *** The track start *)

Lemma newMavlinkMessage_startDTG t m c :
  _startDTG (_newMavlinkMessage t m c) = startAfter t c.
Proof.
  unfold _newMavlinkMessage, startAfter.
  set (c1 := set_curTimeUSecs _ _).
  assert (E1 : _startDTG c1 = if _startDTG c =? 0 then wrap64 t else _startDTG c)
    by (subst c1; now destruct (_startDTG c =? 0)).
  destruct m as [g|g|v|id]; try exact E1.
  - unfold _handleGpsRawInt.
    destruct (negb _); [destruct (_ >=? _)|]; try exact E1.
    now rewrite (proj1 (proj2 (appendUnlessRepeated_frame _ _))).
  - unfold _handleGlobalPositionInt.
    now rewrite (proj1 (proj2 (appendUnlessRepeated_frame _ _))).
Qed.

(** A start that is set (not zero) is never assigned again. *)
Lemma feed_startDTG_set messages : forall c,
  _startDTG c <> 0 -> _startDTG (feed c messages) = _startDTG c.
Proof.
  induction messages as [|[t m] rest IH]; intros c H; [reflexivity|].
  cbn [feed fold_left fst snd].
  assert (E : _startDTG (_newMavlinkMessage t m c) = _startDTG c).
  { rewrite newMavlinkMessage_startDTG. unfold startAfter.
    now rewrite (proj2 (Z.eqb_neq _ _) H). }
  unfold feed in IH. rewrite IH; rewrite E; auto.
Qed.

(** A first message whose timestamp is not zero fixes the start of a new
    converter for the rest of the sequence. *)
Lemma feed_startDTG_first t m rest :
  wrap64 t <> 0 ->
  _startDTG (feed UTMConverter_new ((t, m) :: rest)) = wrap64 t.
Proof.
  intros H. cbn [feed fold_left fst snd].
  assert (E : _startDTG (_newMavlinkMessage t m UTMConverter_new) = wrap64 t)
    by now rewrite newMavlinkMessage_startDTG.
  pose proof (feed_startDTG_set rest (_newMavlinkMessage t m UTMConverter_new)) as S.
  unfold feed in S. rewrite S; rewrite E; auto.
Qed.

(** C8 at a log whose first timestamp is zero: the first message leaves the
    start at zero, which is also the value of an unset start, and the second
    message assigns it again, to its own timestamp; later messages leave it
    alone.  The same happens through [convertTelemetryFile] on a log that
    begins with eight zero bytes. *)
Theorem startDTG_assigned_twice :
  let m := MAVLINK_MSG_ID_other 0 in
  _startDTG (feed UTMConverter_new [(0, m)]) = 0
  /\ _startDTG (feed UTMConverter_new [(0, m); (5, m)]) = 5
  /\ _startDTG (feed UTMConverter_new [(0, m); (5, m); (9, m)]) = 5
  /\ (let log := Fixture.zeroTime ++ [Byte.x03] ++ Fixture.fiveMicros
                 ++ [Byte.x03] ++ Fixture.nineMicros in
      exists out,
        Fixture.convert 1 (Some log) true Fixture.destination tt 0%nat UTMConverter_new
        = Some out
        /\ _startDTG (Pipeline.converter out) = 5
        /\ _lastSpeed (Pipeline.converter out) = 5.5%float).
Proof.
  cbv zeta. split; [reflexivity|]. split; [reflexivity|]. split; [reflexivity|].
  eexists. split; [vm_compute; reflexivity|]. split; reflexivity.
Qed.

End ConverterFacts.

(** ** The conversion *)

Module PipelineFacts.

Import Int Endian Timestamp Mavlink Converter Pipeline IntFacts.

Section Reader.

Variable host : ByteOrder.
Variable beyond : nat -> byte.
Variable clock : nat -> Z.
Variable Channel : Type.
Variable mavlink_parse_char : Channel -> byte -> Channel * option mavlink_message_t.
Variable indeterminate : mavlink_message_t.

Local Abbreviation readBytes :=
  (readBytes host beyond clock Channel mavlink_parse_char).
Local Abbreviation readNext :=
  (_readNextMavlinkMessage host beyond clock Channel mavlink_parse_char).
Local Abbreviation parseLog :=
  (parseLog host beyond clock Channel mavlink_parse_char indeterminate).
Local Abbreviation convert :=
  (convertTelemetryFile host beyond clock Channel mavlink_parse_char indeterminate).
Local Abbreviation silent := (silent Channel mavlink_parse_char).

(** *** The read loop ends *)

(** A read either returns zero or leaves fewer unread bytes. *)
Lemma readBytes_progress bytes : forall ch n message,
  let '(ret, _, r') := readBytes bytes ch n message in
  ret = 0 \/ (List.length (unread r') < List.length bytes)%nat.
Proof.
  induction bytes as [|b rest IH]; intros ch n message; cbn [Pipeline.readBytes].
  - now left.
  - destruct (mavlink_parse_char ch b) as [ch' [received|]].
    + right. cbn [Pipeline.unread List.length]. rewrite length_skipn. lia.
    + specialize (IH ch' n message).
      destruct (readBytes rest ch' n message) as [[ret m] r'].
      destruct IH as [Z|L]; [now left|right]. cbn [List.length]. lia.
Qed.

Lemma parseLog_total fuel : forall c r,
  (List.length (unread r) < fuel)%nat ->
  exists c' r', parseLog fuel c r = Some (c', r').
Proof.
  induction fuel as [|fuel IH]; intros c r L; [lia|].
  cbn [Pipeline.parseLog]. unfold Pipeline._readNextMavlinkMessage.
  pose proof (readBytes_progress (unread r) (channel r) (ticks r) indeterminate) as P.
  destruct (readBytes (unread r) (channel r) (ticks r) indeterminate) as [[ret m] r'].
  destruct (to_qint64 ret =? 0) eqn:Z0; [now exists c, r'|].
  apply IH. destruct P as [->|P]; [discriminate Z0|lia].
Qed.

(** The converter that the read loop leaves is the one that [feed] computes
    from the messages read, up to the time of the message to come. *)
Lemma parseLog_feeds fuel : forall c r c' r',
  parseLog fuel c r = Some (c', r') ->
  exists messages t, c' = set_curTimeUSecs t (feed c messages).
Proof.
  induction fuel as [|fuel IH]; intros c r c' r' H; [discriminate H|].
  cbn [Pipeline.parseLog] in H.
  destruct (readNext indeterminate r) as [[ret m] r1].
  destruct (to_qint64 ret =? 0).
  - injection H as <- <-. exists [], (_curTimeUSecs c). now destruct c.
  - apply IH in H as (messages & t & ->).
    exists ((to_qint64 (_curTimeUSecs c), m) :: messages), t.
    cbn [feed fold_left fst snd].
    destruct messages as [|[t1 m1] rest]; cbn [feed fold_left fst snd].
    + reflexivity.
    + now rewrite ConverterFacts.newMavlinkMessage_set_curTimeUSecs.
Qed.

(** *** Outcomes of a conversion *)

(** The track that a call leaves is the track that [feed] computes from the
    messages that the call has read. *)
Lemma convert_track_fed reserved source dstOpens dstFilename ch n c out :
  convert reserved source dstOpens dstFilename ch n c = Some out ->
  exists messages, _logItems (converter out) = _logItems (feed c messages).
Proof.
  unfold Pipeline.convertTelemetryFile.
  set (c1 := if _mavlinkChannel c =? 0 then set_mavlinkChannel reserved c else c).
  assert (E1 : forall messages, _logItems (feed c1 messages) = _logItems (feed c messages)).
  { intros messages. subst c1. destruct (_mavlinkChannel c =? 0); [|reflexivity].
    now rewrite ConverterFacts.feed_set_mavlinkChannel. }
  destruct (_mavlinkChannel c1 =? 0).
  { intros H. injection H as <-. exists []. apply (E1 []). }
  destruct source as [content|].
  2:{ intros H. injection H as <-. exists []. apply (E1 []). }
  destruct dstOpens; cbn [negb].
  2:{ intros H. injection H as <-. exists []. apply (E1 []). }
  match goal with
  | |- context [parseLog ?f ?c0 ?r0] =>
      destruct (parseLog f c0 r0) as [[c' r']|] eqn:P; [|discriminate]
  end.
  intros H. injection H as <-. cbn [converter].
  apply parseLog_feeds in P as (messages & t & ->).
  exists messages. cbn [set_curTimeUSecs _logItems].
  now rewrite ConverterFacts.feed_set_curTimeUSecs_logItems, E1.
Qed.


(** The shape of every outcome: one of the three early returns, or a
    completed read loop followed by the write block. *)
Lemma convert_outcome reserved source dstOpens dstFilename ch n c :
  let c1 := if _mavlinkChannel c =? 0 then set_mavlinkChannel reserved c else c in
  exists out,
    convert reserved source dstOpens dstFilename ch n c = Some out
    /\ ((returned out = false /\ utmLogFileOps out = []
         /\ _mavlinkChannel c = 0 /\ reserved = 0)
        \/ (returned out = false /\ utmLogFileOps out = [] /\ source = None)
        \/ (returned out = false /\ utmLogFileOps out = [f_open false]
            /\ dstOpens = false)
        \/ (returned out = true
            /\ ~ (_mavlinkChannel c = 0 /\ reserved = 0)
            /\ source <> None /\ dstOpens = true
            /\ utmLogFileOps out
               = [f_open true] ++ writeTrack dstFilename (converter out)
                 ++ [f_close]
                 ++ (if Nat.eqb (size (converter out)) 0 then [f_remove] else []))).
Proof.
  intros c1. unfold Pipeline.convertTelemetryFile. fold c1.
  assert (NS : (_mavlinkChannel c1 =? 0) = true ->
               _mavlinkChannel c = 0 /\ reserved = 0).
  { subst c1. destruct (Z.eqb_spec (_mavlinkChannel c) 0) as [E|E]; cbn.
    - intros R. apply Z.eqb_eq in R. now split.
    - intros R. apply Z.eqb_eq in R. contradiction. }
  assert (OK : (_mavlinkChannel c1 =? 0) = false ->
               ~ (_mavlinkChannel c = 0 /\ reserved = 0)).
  { subst c1. destruct (Z.eqb_spec (_mavlinkChannel c) 0) as [E|E]; cbn.
    - intros R [_ R0]. apply Z.eqb_neq in R. contradiction.
    - intros _ [E0 _]. contradiction. }
  destruct (_mavlinkChannel c1 =? 0) eqn:T.
  { eexists. split; [reflexivity|]. left. cbn. now destruct (NS eq_refl). }
  destruct source as [content|].
  2:{ eexists. split; [reflexivity|]. right. left. now cbn. }
  destruct dstOpens; cbn [negb].
  2:{ eexists. split; [reflexivity|]. right. right. left. now cbn. }
  match goal with
  | |- context [parseLog ?f ?c0 ?r0] =>
      destruct (parseLog_total f c0 r0 (Nat.lt_succ_diag_r _)) as (c' & r' & E);
      rewrite E
  end.
  eexists. split; [reflexivity|]. right. right. right.
  cbn [returned utmLogFileOps converter].
  repeat split; auto. discriminate.
Qed.

(** C7: every call returns, and it returns [false] exactly when no channel
    is held and none can be reserved, or the source cannot be opened, or the
    destination cannot be opened; in every other case, whatever the log
    holds and whether or not the track is empty, it returns [true]. *)
Theorem convert_returns_false_in_three_cases
    reserved source dstOpens dstFilename ch n c :
  exists out,
    convert reserved source dstOpens dstFilename ch n c = Some out
    /\ (returned out = false <->
        (_mavlinkChannel c = 0 /\ reserved = 0)
        \/ source = None \/ dstOpens = false)
    /\ (returned out = true <->
        ~ (_mavlinkChannel c = 0 /\ reserved = 0)
        /\ source <> None /\ dstOpens = true).
Proof.
  destruct (convert_outcome reserved source dstOpens dstFilename ch n c)
    as (out & E & H).
  exists out. split; [exact E|].
  destruct H as [(R & _ & A & B)|[(R & _ & A)|[(R & _ & A)|(R & A & B & C & _)]]];
    rewrite R; (split; split; intros H); try discriminate H; auto.
  - destruct H as (H & _). now elim H.
  - destruct H as (_ & H & _). now elim H.
  - destruct H as (_ & _ & H). rewrite A in H. discriminate H.
  - destruct H as [H|[H|H]]; [now elim A | now elim B | rewrite C in H; discriminate H].
Qed.

(** C6: when the track is empty at the end of a call, the destination file
    has been given no write at all; if the call got as far as opening it,
    it was closed and then removed, and otherwise it was never created. *)
Theorem empty_track_leaves_no_file
    reserved source dstOpens dstFilename ch n c :
  exists out,
    convert reserved source dstOpens dstFilename ch n c = Some out
    /\ (_logItems (converter out) = [] ->
        (forall data, ~ In (f_write data) (utmLogFileOps out))
        /\ (returned out = true ->
            utmLogFileOps out = [f_open true; f_close; f_remove])
        /\ (returned out = false ->
            utmLogFileOps out = [] \/ utmLogFileOps out = [f_open false])).
Proof.
  destruct (convert_outcome reserved source dstOpens dstFilename ch n c)
    as (out & E & H).
  exists out. split; [exact E|]. intros Empty.
  assert (W : writeTrack dstFilename (converter out) = []).
  { unfold writeTrack, size. now rewrite Empty. }
  assert (Z0 : Nat.eqb (size (converter out)) 0 = true).
  { unfold size. now rewrite Empty. }
  destruct H as [(R & O & _)|[(R & O & _)|[(R & O & _)|(R & _ & _ & _ & O)]]];
    rewrite R, O; try rewrite W, Z0; cbn [app].
  - repeat split; auto; discriminate.
  - repeat split; auto; discriminate.
  - split; [|split; [discriminate | auto]].
    intros data [H|[]]. discriminate H.
  - split; [|split; [reflexivity | discriminate]].
    intros data [H|[H|[H|[]]]]; discriminate H.
Qed.

(** The track of a call on a converter whose track has no repeats has no
    repeats either; a new converter is such a converter. *)
Lemma convert_track_settled reserved source dstOpens dstFilename ch n c out :
  Spec.settled c ->
  convert reserved source dstOpens dstFilename ch n c = Some out ->
  Spec.noRepeats (_logItems (converter out)) = true.
Proof.
  intros S H. apply convert_track_fed in H as (messages & ->).
  apply (ConverterFacts.settled_feed messages c S).
Qed.

(** *** The zero timestamp *)

Lemma readBytes_silent skipped : forall more ch ch0 n message,
  silent ch skipped = Some ch0 ->
  readBytes (skipped ++ more) ch n message = readBytes more ch0 n message.
Proof.
  induction skipped as [|b rest IH]; intros more ch ch0 n message H.
  - cbn in H. now injection H as ->.
  - cbn [Pipeline.silent] in H. cbn [app Pipeline.readBytes].
    destruct (mavlink_parse_char ch b) as [ch' [received|]]; [discriminate H|].
    now apply IH.
Qed.

Lemma firstn_skipn_exact {A} (xs ys : list A) k :
  List.length xs = k -> firstn k (xs ++ ys) = xs /\ skipn k (xs ++ ys) = ys.
Proof.
  intros <-. split.
  - rewrite firstn_app, Nat.sub_diag, firstn_all. cbn. apply app_nil_r.
  - rewrite skipn_app, Nat.sub_diag, skipn_all. reflexivity.
Qed.

(** What a read returns when a byte completes a message. *)
Lemma readNext_message r skipped ch0 nextByte ch' message rawTime rest :
  unread r = skipped ++ nextByte :: rawTime ++ rest ->
  silent (channel r) skipped = Some ch0 ->
  mavlink_parse_char ch0 nextByte = (ch', Some message) ->
  List.length rawTime = TIMESTAMP_SIZE ->
  readNext indeterminate r
  = (_parseTimestamp host beyond (clock (ticks r)) rawTime,
     message,
     mkReader rest ch' (S (ticks r))).
Proof.
  intros U Q P L. unfold Pipeline._readNextMavlinkMessage.
  rewrite U, (readBytes_silent skipped _ _ ch0) by exact Q.
  cbn [Pipeline.readBytes]. rewrite P.
  destruct (firstn_skipn_exact rawTime rest _ L) as [-> ->]. reflexivity.
Qed.

(** A message followed by a timestamp that is not zero is handed to
    [_newMavlinkMessage], and the loop goes on. *)
Lemma parseLog_dispatches fuel c r skipped ch0 nextByte ch' message rawTime rest :
  unread r = skipped ++ nextByte :: rawTime ++ rest ->
  silent (channel r) skipped = Some ch0 ->
  mavlink_parse_char ch0 nextByte = (ch', Some message) ->
  List.length rawTime = TIMESTAMP_SIZE ->
  let next := to_qint64 (_parseTimestamp host beyond (clock (ticks r)) rawTime) in
  next <> 0 ->
  parseLog (S fuel) c r
  = parseLog fuel
      (set_curTimeUSecs (wrap64 next)
         (_newMavlinkMessage (to_qint64 (_curTimeUSecs c)) message c))
      (mkReader rest ch' (S (ticks r))).
Proof.
  intros U Q P L next N. cbn [Pipeline.parseLog].
  rewrite (readNext_message r skipped ch0 nextByte ch' message rawTime rest U Q P L).
  fold next. now rewrite (proj2 (Z.eqb_neq _ _) N).
Qed.

(** C10: when a byte of the log completes a message and the eight bytes
    behind it decode to the timestamp zero, the read returns zero as it does
    at the end of the file, and the loop stops there: the converter is left
    as it was, the message never reaches [_newMavlinkMessage], and whatever
    follows in the log stays unread. *)
Theorem zero_timestamp_ends_the_loop
    fuel c r skipped ch0 nextByte ch' message rawTime rest :
  unread r = skipped ++ nextByte :: rawTime ++ rest ->
  silent (channel r) skipped = Some ch0 ->
  mavlink_parse_char ch0 nextByte = (ch', Some message) ->
  List.length rawTime = TIMESTAMP_SIZE ->
  _parseTimestamp host beyond (clock (ticks r)) rawTime = 0 ->
  readNext indeterminate r = (0, message, mkReader rest ch' (S (ticks r)))
  /\ readNext indeterminate (mkReader [] (channel r) (ticks r))
     = (0, indeterminate, mkReader [] (channel r) (ticks r))
  /\ parseLog (S fuel) c r = Some (c, mkReader rest ch' (S (ticks r))).
Proof.
  intros U Q P L Z0.
  pose proof (readNext_message r skipped ch0 nextByte ch' message rawTime rest U Q P L)
    as E.
  rewrite Z0 in E. split; [exact E|]. split; [reflexivity|].
  cbn [Pipeline.parseLog]. now rewrite E.
Qed.

End Reader.

End PipelineFacts.

(** ** More on timestamp decoding *)

Module TimestampMore.

Import Int Endian Timestamp IntFacts EndianFacts TimestampFacts.

Lemma qbswap_nonneg x : 0 <= qbswap x.
Proof.
  unfold qbswap.
  repeat (apply Z.lor_nonneg; split);
    (apply Z.shiftl_nonneg || apply Z.shiftr_nonneg);
    apply Z.land_nonneg; right; lia.
Qed.

Lemma wrap64_bits x i :
  0 <= i -> Z.testbit (wrap64 x) i = (i <? 64) && Z.testbit x i.
Proof.
  intros Hi. unfold wrap64, two64. apply Z.testbit_mod_pow2. lia.
Qed.

(** Swapping the bytes twice gives back the 64-bit value: for every
    integer, the double swap is its residue modulo [2^64], and a swap always
    yields a 64-bit value. *)
Lemma qbswap_involutive x :
  qbswap (qbswap x) = wrap64 x /\ in_u64 (qbswap x).
Proof.
  assert (I : forall y, qbswap (qbswap y) = wrap64 y).
  { intros y. apply Z.bits_inj'. intros i Hi. rewrite wrap64_bits by lia.
    destruct (Z.ltb_spec i 64) as [Lt|Ge]; cbn [andb].
    - assert (J : 0 <= i / 8 < 8)
        by (split; [apply Z.div_pos; lia | apply Z.div_lt_upper_bound; lia]).
      pose proof (Z.div_mod i 8 ltac:(lia)) as D.
      pose proof (Z.mod_pos_bound i 8 ltac:(lia)) as M.
      rewrite qbswap_bits by lia.
      assert (Q : (i + 56 - 16 * (i / 8)) / 8 = 7 - i / 8).
      { replace (i + 56 - 16 * (i / 8)) with (i mod 8 + (7 - i / 8) * 8) by lia.
        rewrite Z.div_add, Z.div_small by lia. lia. }
      rewrite qbswap_bits by lia. rewrite Q. f_equal. lia.
    - now rewrite qbswap_bits_high by lia. }
  split; [apply I|].
  assert (W : wrap64 (qbswap x) = qbswap x).
  { apply Z.bits_inj'. intros i Hi. rewrite wrap64_bits by lia.
    destruct (Z.ltb_spec i 64) as [Lt|Ge]; cbn [andb]; [reflexivity|].
    now rewrite qbswap_bits_high by lia. }
  rewrite <- W. apply wrap64_range.
Qed.

Lemma be_value_zero bs :
  be_value bs = 0 -> bs = repeat Byte.x00 (List.length bs).
Proof.
  unfold be_value.
  induction bs as [|b l IH] using rev_ind; intros H; [reflexivity|].
  rewrite fold_left_app in H. cbn [fold_left] in H.
  pose proof (be_value_bound l) as Bl. unfold be_value in Bl.
  pose proof (byte.unsigned_range b) as Bb.
  assert (H0 : fold_left (fun acc b0 => acc * 256 + byte.unsigned b0) l 0 = 0) by lia.
  assert (Hb : byte.unsigned b = 0) by lia.
  rewrite length_app, repeat_app, <- IH by exact H0. cbn [List.length repeat].
  f_equal. f_equal. apply byte.unsigned_inj. rewrite Hb. reflexivity.
Qed.

Lemma be_value_repeat_zero k : be_value (repeat Byte.x00 k) = 0.
Proof.
  unfold be_value. induction k as [|k IH]; [reflexivity|].
  cbn [repeat fold_left]. exact IH.
Qed.

Lemma currentTimestamp_nonneg nowMSecs : 0 <= currentTimestamp nowMSecs.
Proof. unfold currentTimestamp. apply wrap64_range. Qed.

(** What [_parseTimestamp] computes on eight bytes, in terms of the two
    readings of the bytes. *)
Lemma parseTimestamp_readings host beyond nowMSecs bytes :
  List.length bytes = 8%nat ->
  _parseTimestamp host beyond nowMSecs bytes
  = (if be_value bytes >? currentTimestamp nowMSecs
     then be_value (rev bytes) else be_value bytes).
Proof.
  intros L. unfold _parseTimestamp.
  rewrite constData8_exact, qFromBigEndian_load by assumption.
  now rewrite qbswap_be_value by assumption.
Qed.

(** X1: eight bytes decode to the timestamp zero, the value on which the
    read loop stops, exactly when all eight are zero, whatever the clock
    reads. *)
Theorem parseTimestamp_zero_iff host beyond nowMSecs bytes :
  List.length bytes = 8%nat ->
  (_parseTimestamp host beyond nowMSecs bytes = 0
   <-> bytes = repeat Byte.x00 8).
Proof.
  intros L. rewrite parseTimestamp_readings by assumption.
  pose proof (currentTimestamp_nonneg nowMSecs) as N.
  split.
  - destruct (Z.gtb_spec (be_value bytes) (currentTimestamp nowMSecs)) as [G|G];
      intros H.
    + apply be_value_zero in H. rewrite length_rev, L in H.
      apply (f_equal (@rev byte)) in H. rewrite rev_involutive in H.
      rewrite H. reflexivity.
    + apply be_value_zero in H. now rewrite L in H.
  - intros ->. rewrite (be_value_repeat_zero 8).
    destruct (Z.gtb_spec 0 (currentTimestamp nowMSecs)); [lia|reflexivity].
Qed.

(** X2: on eight bytes or more the decoder reads the first eight only,
    never the memory behind the array, and its result is the same on a
    little-endian and on a big-endian machine. *)
Theorem parseTimestamp_portable host host' beyond beyond' nowMSecs bytes :
  (8 <= List.length bytes)%nat ->
  _parseTimestamp host beyond nowMSecs bytes
  = _parseTimestamp host' beyond' nowMSecs (firstn 8 bytes).
Proof.
  intros L.
  assert (C : forall b, constData8 b bytes = firstn 8 bytes).
  { intros b. do 8 (destruct bytes as [|? bytes]; [cbn in L; lia|]). reflexivity. }
  assert (L8 : List.length (firstn 8 bytes) = 8%nat)
    by (rewrite length_firstn; lia).
  rewrite (parseTimestamp_readings host' beyond' _ _ L8).
  unfold _parseTimestamp. rewrite C, qFromBigEndian_load by assumption.
  now rewrite qbswap_be_value by assumption.
Qed.

(** X3: the decoded timestamp is one of the two readings of the eight
    bytes, big endian or little endian, and it lies in the future of the
    clock only when both readings do. *)
Theorem parseTimestamp_picks_a_past_reading host beyond nowMSecs bytes :
  List.length bytes = 8%nat ->
  let result := _parseTimestamp host beyond nowMSecs bytes in
  (result = be_value bytes \/ result = le_value bytes)
  /\ (be_value bytes <= currentTimestamp nowMSecs
      \/ le_value bytes <= currentTimestamp nowMSecs ->
      result <= currentTimestamp nowMSecs).
Proof.
  intros L result. subst result.
  rewrite parseTimestamp_readings, be_value_rev by assumption.
  destruct (Z.gtb_spec (be_value bytes) (currentTimestamp nowMSecs)) as [G|G].
  - split; [now right|]. intros [H|H]; lia.
  - split; [now left|]. intros _. exact G.
Qed.

(** X4: the byte order of a log is detected: when eight bytes read big
    endian give a time that is not in the future while read little endian
    they give one that is, the decoder returns that time both for the bytes
    as they are and for the same bytes stored in reverse order. *)
Theorem parseTimestamp_detects_byte_order host beyond nowMSecs bytes :
  List.length bytes = 8%nat ->
  be_value bytes <= currentTimestamp nowMSecs ->
  currentTimestamp nowMSecs < le_value bytes ->
  _parseTimestamp host beyond nowMSecs bytes = be_value bytes
  /\ _parseTimestamp host beyond nowMSecs (rev bytes) = be_value bytes.
Proof.
  intros L P F.
  rewrite !parseTimestamp_readings by (rewrite ?length_rev; assumption).
  rewrite rev_involutive, be_value_rev.
  destruct (Z.gtb_spec (be_value bytes) (currentTimestamp nowMSecs)); [lia|].
  destruct (Z.gtb_spec (le_value bytes) (currentTimestamp nowMSecs)); [|lia].
  now split.
Qed.

End TimestampMore.

(** ** More on the message handlers *)

Module ConverterMore.

Import Int Mavlink Converter Spec Notions IntFacts DoubleFacts ConverterFacts.

(** X5: a raw GPS fix below a 3D lock changes neither the track, nor the
    last speed, nor the priority flag, whatever the state of the converter
    and whether or not a global position has been seen. *)
Theorem weak_fix_is_ignored t g c :
  gps_raw_int.fix_type g < GPS_FIX_TYPE_3D_FIX ->
  let c' := _newMavlinkMessage t (MAVLINK_MSG_ID_GPS_RAW_INT g) c in
  _logItems c' = _logItems c
  /\ _lastSpeed c' = _lastSpeed c
  /\ _globalPositionIntMessageAvailable c' = _globalPositionIntMessageAvailable c.
Proof.
  intros F c'. subst c'. unfold _newMavlinkMessage, _handleGpsRawInt.
  assert (Fb : (gps_raw_int.fix_type g >=? GPS_FIX_TYPE_3D_FIX) = false).
  { rewrite Z.geb_leb. apply Z.leb_gt. exact F. }
  rewrite Fb.
  destruct (_startDTG c =? 0); handler_fields;
    destruct (negb (_globalPositionIntMessageAvailable c)); repeat split.
Qed.

Lemma newMavlinkMessage_length t m c :
  (List.length (_logItems (_newMavlinkMessage t m c))
   <= List.length (_logItems c) + (if isPosition m then 1 else 0))%nat.
Proof.
  assert (A : forall item c0, _logItems c0 = _logItems c ->
              (List.length (_logItems (appendUnlessRepeated item c0))
               <= List.length (_logItems c) + 1)%nat).
  { intros item c0 E. rewrite appendUnlessRepeated_logItems, E.
    destruct (repeatsLast _ _); [lia|]. rewrite length_app. cbn. lia. }
  unfold _newMavlinkMessage.
  set (c1 := set_curTimeUSecs _ _).
  assert (E1 : _logItems c1 = _logItems c)
    by (subst c1; now destruct (_startDTG c =? 0)).
  destruct m as [g|g|v|id]; cbn [isPosition].
  - unfold _handleGpsRawInt. destruct (negb _); [destruct (_ >=? _)|];
      try (cbn [_logItems set_gpsRawIntMessageAvailable]; rewrite E1; lia).
    now apply A.
  - unfold _handleGlobalPositionInt. now apply A.
  - unfold _handleVfrHud. cbn [_logItems set_lastSpeed]. rewrite E1. lia.
  - rewrite E1. lia.
Qed.

(** X6: a message adds at most one item, and only a position message can
    add one: a sequence of messages lengthens the track by no more than the
    number of raw fixes and global positions in it. *)
Theorem track_grows_by_positions_at_most messages : forall c,
  (List.length (_logItems (feed c messages))
   <= List.length (_logItems c)
      + List.length (filter (fun tm => isPosition (snd tm)) messages))%nat.
Proof.
  induction messages as [|[t m] rest IH]; intros c; [cbn; lia|].
  cbn [feed fold_left fst snd filter].
  specialize (IH (_newMavlinkMessage t m c)). unfold feed in IH.
  pose proof (newMavlinkMessage_length t m c) as S1.
  destruct (isPosition m); cbn [List.length]; lia.
Qed.

(** X7: the track is append-only: whatever messages arrive, the items a
    converter already holds stay where they are, unchanged. *)
Theorem track_is_append_only messages c :
  firstn (List.length (_logItems c)) (_logItems (feed c messages)) = _logItems c.
Proof.
  destruct (feed_grows messages c) as (added & ->).
  rewrite firstn_app, Nat.sub_diag, firstn_all. cbn. apply app_nil_r.
Qed.

Lemma newMavlinkMessage_lastSpeed t m c :
  _lastSpeed (_newMavlinkMessage t m c) = speedAfter (_lastSpeed c) [(t, m)].
Proof.
  unfold speedAfter. cbn [fold_left snd].
  unfold _newMavlinkMessage. set (c1 := set_curTimeUSecs _ _).
  assert (E1 : _lastSpeed c1 = _lastSpeed c)
    by (subst c1; now destruct (_startDTG c =? 0)).
  destruct m as [g|g|v|id]; try exact E1.
  - unfold _handleGpsRawInt. destruct (negb _); [destruct (_ >=? _)|]; try exact E1.
    now rewrite (proj1 (proj2 (proj2 (appendUnlessRepeated_frame _ _)))).
  - unfold _handleGlobalPositionInt.
    now rewrite (proj1 (proj2 (proj2 (appendUnlessRepeated_frame _ _)))).
  - reflexivity.
Qed.

(** X8: after any sequence of messages the last speed is the ground speed
    of the last VFR_HUD of the sequence, zero if that was not a number, and
    the speed held before when the sequence has no VFR_HUD; no other message
    touches it. *)
Theorem lastSpeed_is_last_report messages : forall c,
  _lastSpeed (feed c messages) = speedAfter (_lastSpeed c) messages.
Proof.
  induction messages as [|[t m] rest IH]; intros c; [reflexivity|].
  cbn [feed fold_left fst snd]. specialize (IH (_newMavlinkMessage t m c)).
  unfold feed in IH. rewrite IH, newMavlinkMessage_lastSpeed.
  unfold speedAfter. reflexivity.
Qed.

Lemma newMavlinkMessage_flag_value t m c :
  _globalPositionIntMessageAvailable (_newMavlinkMessage t m c)
  = _globalPositionIntMessageAvailable c || isGlobalPosition m.
Proof.
  destruct m as [g|g|v|id]; cbn [isGlobalPosition]; rewrite ?orb_false_r, ?orb_true_r.
  - unfold _newMavlinkMessage. rewrite handleGpsRawInt_flag.
    now destruct (_startDTG c =? 0).
  - apply globalPositionInt_sets_flag.
  - unfold _newMavlinkMessage, _handleVfrHud. now destruct (_startDTG c =? 0).
  - unfold _newMavlinkMessage. now destruct (_startDTG c =? 0).
Qed.

(** X9: the priority flag after a sequence of messages is set exactly when
    it was set before or the sequence holds a global position estimate;
    nothing ever clears it. *)
Theorem flag_records_global_position messages : forall c,
  _globalPositionIntMessageAvailable (feed c messages)
  = _globalPositionIntMessageAvailable c
    || existsb (fun tm => isGlobalPosition (snd tm)) messages.
Proof.
  induction messages as [|[t m] rest IH]; intros c; cbn [existsb snd].
  - now rewrite orb_false_r.
  - cbn [feed fold_left fst snd]. specialize (IH (_newMavlinkMessage t m c)).
    unfold feed in IH. rewrite IH, newMavlinkMessage_flag_value.
    now rewrite orb_assoc.
Qed.

(** *** Items are made of numbers *)

Lemma SFmul_not_nan prec emax x sy my ey :
  x <> S754_nan -> SFmul prec emax x (S754_finite sy my ey) <> S754_nan.
Proof.
  intros H. destruct x as [s|s| |s m e]; cbn; try discriminate; try congruence.
  apply binary_round_aux_not_nan. lia.
Qed.

Lemma of_u64_not_nan z : Prim2SF (Double.of_u64 z) <> S754_nan.
Proof.
  unfold Double.of_u64. destruct (z <? 2 ^ 63); [apply of_uint63_not_nan|].
  rewrite FloatAxioms.mul_spec.
  replace (Prim2SF 2) with (S754_finite false 4503599627370496 (-51))
    by (vm_compute; reflexivity).
  apply SFmul_not_nan, of_uint63_not_nan.
Qed.

Lemma elapsed_not_nan c : PrimFloat.is_nan (elapsed c) = false.
Proof.
  unfold elapsed.
  eapply div_finite_not_nan; [vm_compute; reflexivity | apply of_u64_not_nan].
Qed.

Lemma allNumbers_step t m c :
  PrimFloat.is_nan (_lastSpeed c) = false ->
  forallb allNumbers (_logItems c) = true ->
  forallb allNumbers (_logItems (_newMavlinkMessage t m c)) = true.
Proof.
  intros Sp F.
  assert (A : forall item c0,
              _logItems c0 = _logItems c -> allNumbers item = true ->
              forallb allNumbers (_logItems (appendUnlessRepeated item c0)) = true).
  { intros item c0 E N. rewrite appendUnlessRepeated_logItems, E.
    destruct (repeatsLast _ _); [exact F|].
    rewrite forallb_app, F. cbn. now rewrite N. }
  unfold _newMavlinkMessage.
  set (c1 := set_curTimeUSecs _ _).
  assert (E1 : _logItems c1 = _logItems c)
    by (subst c1; now destruct (_startDTG c =? 0)).
  assert (S1 : _lastSpeed c1 = _lastSpeed c)
    by (subst c1; now destruct (_startDTG c =? 0)).
  destruct m as [g|g|v|id].
  - unfold _handleGpsRawInt. destruct (negb _); [destruct (_ >=? _)|];
      try (cbn [_logItems set_gpsRawIntMessageAvailable]; now rewrite E1).
    apply A; [exact E1|].
    unfold allNumbers, numeric. cbn [time lon lat alt speed _lastSpeed
      set_gpsRawIntMessageAvailable].
    now rewrite elapsed_not_nan, !degrees_not_nan, metres_not_nan, S1, Sp.
  - unfold _handleGlobalPositionInt. apply A; [exact E1|].
    unfold allNumbers, numeric. cbn [time lon lat alt speed _lastSpeed
      set_globalPositionIntMessageAvailable].
    now rewrite elapsed_not_nan, !degrees_not_nan, metres_not_nan, S1, Sp.
  - unfold _handleVfrHud. cbn [_logItems set_lastSpeed]. now rewrite E1.
  - now rewrite E1.
Qed.

Lemma allNumbers_feed messages : forall c,
  PrimFloat.is_nan (_lastSpeed c) = false ->
  forallb allNumbers (_logItems c) = true ->
  forallb allNumbers (_logItems (feed c messages)) = true.
Proof.
  induction messages as [|[t m] rest IH]; intros c Sp F; [exact F|].
  cbn [feed fold_left fst snd]. apply IH.
  - rewrite newMavlinkMessage_lastSpeed. unfold speedAfter. cbn [fold_left snd].
    destruct m as [g|g|v|id]; try exact Sp.
    destruct (PrimFloat.is_nan (vfr_hud.groundspeed v)) eqn:V; [reflexivity|exact V].
  - now apply allNumbers_step.
Qed.

(** X10: no field of a track item is ever a NaN: in the track that any
    message sequence leaves on a new converter, time, longitude, latitude,
    altitude and speed of every item are numbers, even when speed reports
    carried NaN. *)
Theorem items_hold_numbers messages item :
  In item (_logItems (feed UTMConverter_new messages)) ->
  PrimFloat.is_nan (time item) = false
  /\ PrimFloat.is_nan (lon item) = false
  /\ PrimFloat.is_nan (lat item) = false
  /\ PrimFloat.is_nan (alt item) = false
  /\ PrimFloat.is_nan (speed item) = false.
Proof.
  intros H.
  pose proof (allNumbers_feed messages UTMConverter_new eq_refl eq_refl) as F.
  rewrite forallb_forall in F. specialize (F item H).
  unfold allNumbers, numeric in F.
  apply andb_prop in F as [T F]. apply andb_prop in F as [F S4].
  apply andb_prop in F as [F S3]. apply andb_prop in F as [S1 S2].
  repeat split; now apply negb_true_iff.
Qed.

(** X11: deduplication drops nothing else than repeats: a global position
    is appended, with its elapsed time and the last speed, whenever the
    track is empty or the last item differs from it in longitude, latitude,
    altitude or speed. *)
Theorem differing_position_is_appended t g c :
  let sample := positionSample (wrap64 t) (startAfter t c) (_lastSpeed c) g in
  (_logItems c = []
   \/ exists items lastItem,
        _logItems c = items ++ [lastItem]
        /\ (PrimFloat.eqb (lon lastItem) (lon sample) = false
            \/ PrimFloat.eqb (lat lastItem) (lat sample) = false
            \/ PrimFloat.eqb (alt lastItem) (alt sample) = false
            \/ PrimFloat.eqb (speed lastItem) (speed sample) = false)) ->
  _logItems (_newMavlinkMessage t (MAVLINK_MSG_ID_GLOBAL_POSITION_INT g) c)
  = _logItems c ++ [sample].
Proof.
  intros sample H. rewrite globalPositionInt_logItems. fold sample.
  destruct H as [->|(items & lastItem & -> & D)]; [reflexivity|].
  rewrite repeatsLast_snoc, compareItem_fields.
  destruct D as [D|[D|[D|D]]]; rewrite D;
    rewrite ?andb_false_r, ?andb_false_l; reflexivity.
Qed.

End ConverterMore.

(** ** More on the conversion *)

Module PipelineMore.

Import Int Endian Timestamp Mavlink Converter Spec Notions Pipeline Lifetime Replay.
Import IntFacts EndianFacts TimestampFacts ConverterFacts PipelineFacts.

Section Reader.

Variable host : ByteOrder.
Variable beyond : nat -> byte.
Variable clock : nat -> Z.
Variable Channel : Type.
Variable mavlink_parse_char : Channel -> byte -> Channel * option mavlink_message_t.
Variable indeterminate : mavlink_message_t.

Local Abbreviation readBytes :=
  (readBytes host beyond clock Channel mavlink_parse_char).
Local Abbreviation readNext :=
  (_readNextMavlinkMessage host beyond clock Channel mavlink_parse_char).
Local Abbreviation parseLog :=
  (parseLog host beyond clock Channel mavlink_parse_char indeterminate).
Local Abbreviation convert :=
  (convertTelemetryFile host beyond clock Channel mavlink_parse_char indeterminate).
Local Abbreviation silent := (silent Channel mavlink_parse_char).
Local Abbreviation reads :=
  (reads host beyond clock Channel mavlink_parse_char indeterminate).

(** *** The read loop *)

Lemma readBytes_all_silent bytes ch ch' n message :
  silent ch bytes = Some ch' ->
  readBytes bytes ch n message = (0, message, mkReader [] ch' n).
Proof.
  intros H. rewrite <- (app_nil_r bytes).
  now rewrite (readBytes_silent host beyond clock Channel mavlink_parse_char
                 bytes [] ch ch' n message H).
Qed.

(** X12: bytes at the end of the log that complete no message, such as a
    truncated last frame, are read and dropped: the loop stops there and
    leaves the converter as it is. *)
Theorem unfinished_tail_is_dropped fuel c r ch' :
  silent (channel r) (unread r) = Some ch' ->
  parseLog (S fuel) c r = Some (c, mkReader [] ch' (ticks r)).
Proof.
  intros H. cbn [Pipeline.parseLog]. unfold Pipeline._readNextMavlinkMessage.
  now rewrite (readBytes_all_silent _ _ _ _ _ H).
Qed.

Lemma constData8_length bytes : List.length (constData8 beyond bytes) = 8%nat.
Proof. unfold constData8. now rewrite length_map, length_seq. Qed.

Lemma parseTimestamp_range nowMSecs bytes :
  in_u64 (_parseTimestamp host beyond nowMSecs bytes).
Proof.
  assert (B : forall bs, List.length bs = 8%nat -> in_u64 (be_value bs)).
  { intros bs L. pose proof (be_value_bound bs) as H. now rewrite L in H. }
  unfold _parseTimestamp.
  rewrite qFromBigEndian_load by apply constData8_length.
  destruct (_ >? _); [|apply B, constData8_length].
  rewrite qbswap_be_value by apply constData8_length.
  apply B. rewrite length_rev. apply constData8_length.
Qed.

Lemma readBytes_range bytes : forall ch n message,
  in_u64 (fst (fst (readBytes bytes ch n message))).
Proof.
  induction bytes as [|b rest IH]; intros ch n message; cbn [Pipeline.readBytes].
  - cbn. unfold in_u64, two64. lia.
  - destruct (mavlink_parse_char ch b) as [ch' [received|]]; [|apply IH].
    cbn [fst]. apply parseTimestamp_range.
Qed.

Lemma set_curTimeUSecs_twice a b c :
  set_curTimeUSecs a (set_curTimeUSecs b c) = set_curTimeUSecs a c.
Proof. reflexivity. Qed.

Lemma set_curTimeUSecs_same c : set_curTimeUSecs (_curTimeUSecs c) c = c.
Proof. now destruct c. Qed.

Lemma feed_after_set_curTimeUSecs x c messages :
  set_curTimeUSecs x (feed (set_curTimeUSecs x c) messages)
  = set_curTimeUSecs x (feed c messages).
Proof.
  destruct messages as [|[t m] rest]; [reflexivity|].
  cbn [feed fold_left fst snd]. now rewrite newMavlinkMessage_set_curTimeUSecs.
Qed.

(** X13: the read loop is the fold of [_newMavlinkMessage] over the records
    of the log, each message taken with the timestamp read before it: the
    first message gets the timestamp that opens the log, every later one the
    timestamp that follows its predecessor, and the timestamp behind the
    last message is left as the current time. *)
Theorem loop_is_fold records : forall fuel c r rEnd,
  reads r records rEnd ->
  fst (fst (readNext indeterminate rEnd)) = 0 ->
  (List.length records < fuel)%nat ->
  parseLog fuel c r
  = Some (set_curTimeUSecs (lastTime (_curTimeUSecs c) records)
            (feed c (attributed (_curTimeUSecs c) records)),
          snd (readNext indeterminate rEnd)).
Proof.
  induction records as [|[m t] rest IH]; intros fuel c r rEnd R E F;
    (destruct fuel as [|fuel]; [cbn in F; lia|]); cbn [Pipeline.parseLog].
  - cbn in R. subst rEnd.
    destruct (readNext indeterminate r) as [[ret m0] r'].
    cbn [fst snd] in *. subst ret. cbn [to_qint64 Z.ltb Z.compare Z.eqb].
    change (to_qint64 0 =? 0) with true. cbn [lastTime attributed feed fold_left].
    now rewrite set_curTimeUSecs_same.
  - cbn [Replay.reads] in R. destruct R as (r1 & R1 & N & R).
    rewrite R1.
    assert (U : in_u64 t).
    { pose proof (readBytes_range (unread r) (channel r) (ticks r) indeterminate) as H.
      unfold Pipeline._readNextMavlinkMessage in R1. now rewrite R1 in H. }
    rewrite to_qint64_zero by exact U. rewrite (proj2 (Z.eqb_neq _ _) N).
    rewrite wrap64_to_qint64 by exact U.
    rewrite (IH fuel _ r1 rEnd R E) by (cbn in F; lia).
    cbn [_curTimeUSecs set_curTimeUSecs lastTime attributed].
    f_equal. f_equal.
    change (feed c ((to_qint64 (_curTimeUSecs c), m) :: attributed t rest))
      with (feed (_newMavlinkMessage (to_qint64 (_curTimeUSecs c)) m c)
              (attributed t rest)).
    destruct (attributed t rest) as [|[t1 m1] more]; [reflexivity|].
    cbn [feed fold_left fst snd]. now rewrite newMavlinkMessage_set_curTimeUSecs.
Qed.

(** *** The written file *)

Lemma writeItems_flags items : forall i lastItem,
  writeItems (items ++ [lastItem]) i (i + List.length (items ++ [lastItem]))
  = map (fun item => f_write (itemLine item false)) items
    ++ [f_write (itemLine lastItem true)].
Proof.
  induction items as [|a items IH]; intros i lastItem.
  - cbn [app writeItems map List.length].
    replace (i <? i + 1 - 1)%nat with false; [reflexivity|].
    symmetry. apply Nat.ltb_ge. lia.
  - cbn [app writeItems map]. f_equal.
    + f_equal. f_equal.
      replace (i <? _)%nat with true; [reflexivity|].
      symmetry. apply Nat.ltb_lt. cbn [List.length]. rewrite length_app.
      cbn [List.length]. lia.
    + specialize (IH (S i) lastItem).
      replace (i + List.length (a :: items ++ [lastItem]))%nat
        with (S i + List.length (items ++ [lastItem]))%nat by (cbn; lia).
      exact IH.
Qed.

(** *** Outcomes, continued *)

(** The converter that a call leaves. *)
Lemma convert_converter reserved source dstOpens dstFilename ch n c out :
  convert reserved source dstOpens dstFilename ch n c = Some out ->
  let c1 := if _mavlinkChannel c =? 0 then set_mavlinkChannel reserved c else c in
  (returned out = false /\ converter out = c1)
  \/ (returned out = true
      /\ exists t0 t messages,
           converter out = set_curTimeUSecs t (feed (set_curTimeUSecs t0 c1) messages)).
Proof.
  intros H c1. unfold Pipeline.convertTelemetryFile in H. fold c1 in H.
  destruct (_mavlinkChannel c1 =? 0).
  { injection H as <-. now left. }
  destruct source as [content|].
  2:{ injection H as <-. now left. }
  destruct dstOpens; cbn [negb] in H.
  2:{ injection H as <-. now left. }
  match type of H with
  | context [Pipeline.parseLog _ _ _ _ _ _ ?f ?c0 ?r0] =>
      destruct (parseLog f c0 r0) as [[c' r']|] eqn:P; [|discriminate H]
  end.
  injection H as <-. right. split; [reflexivity|].
  apply parseLog_feeds in P as (messages & t & ->).
  cbn [converter]. eauto.
Qed.

Lemma feed_mavlinkChannel messages c :
  _mavlinkChannel (feed c messages) = _mavlinkChannel c.
Proof.
  replace c with (set_mavlinkChannel (_mavlinkChannel c) c) at 1 by now destruct c.
  now rewrite feed_set_mavlinkChannel.
Qed.

Lemma feed_startDTG_kept messages c :
  _startDTG c <> 0 -> _startDTG (feed c messages) = _startDTG c.
Proof. apply feed_startDTG_set. Qed.

(** X14: a call never drops or alters the items the converter already
    holds: a converter used for a second log carries the track of the first
    one over, and the new items come behind it. *)
Theorem convert_keeps_items reserved source dstOpens dstFilename ch n c out :
  convert reserved source dstOpens dstFilename ch n c = Some out ->
  firstn (List.length (_logItems c)) (_logItems (converter out)) = _logItems c.
Proof.
  intros H.
  apply (convert_track_fed host beyond clock Channel mavlink_parse_char indeterminate)
    in H as (messages & ->).
  destruct (feed_grows messages c) as (added & ->).
  rewrite firstn_app, Nat.sub_diag, firstn_all. cbn. apply app_nil_r.
Qed.

(** X15: a channel is reserved only when none is held: after a call the
    converter holds the channel it held before, or the reserved one if it
    held none, and with a channel held the call does not depend on what the
    link manager has to offer. *)
Theorem channel_is_reserved_once reserved reserved' source dstOpens dstFilename ch n c :
  (forall out,
     convert reserved source dstOpens dstFilename ch n c = Some out ->
     _mavlinkChannel (converter out)
     = (if _mavlinkChannel c =? 0 then reserved else _mavlinkChannel c))
  /\ (_mavlinkChannel c <> 0 ->
      convert reserved source dstOpens dstFilename ch n c
      = convert reserved' source dstOpens dstFilename ch n c).
Proof.
  split.
  - intros out H. apply convert_converter in H.
    assert (E : _mavlinkChannel
                  (if _mavlinkChannel c =? 0 then set_mavlinkChannel reserved c else c)
                = (if _mavlinkChannel c =? 0 then reserved else _mavlinkChannel c))
      by now destruct (_mavlinkChannel c =? 0).
    destruct H as [(_ & ->)|(_ & t0 & t & messages & ->)]; [exact E|].
    cbn [_mavlinkChannel set_curTimeUSecs]. rewrite feed_mavlinkChannel. exact E.
  - intros H. unfold Pipeline.convertTelemetryFile.
    now rewrite (proj2 (Z.eqb_neq _ _) H).
Qed.

(** X16: the start of the track outlives a call: once it is set (not zero)
    no later call changes it, so the logging start written for a second log
    is still that of the first. *)
Theorem startDTG_outlives_a_call reserved source dstOpens dstFilename ch n c out :
  _startDTG c <> 0 ->
  convert reserved source dstOpens dstFilename ch n c = Some out ->
  _startDTG (converter out) = _startDTG c.
Proof.
  intros S H. apply convert_converter in H.
  assert (E : forall x,
            _startDTG (set_curTimeUSecs x
              (if _mavlinkChannel c =? 0 then set_mavlinkChannel reserved c else c))
            = _startDTG c)
    by (intros x; now destruct (_mavlinkChannel c =? 0)).
  destruct H as [(_ & ->)|(_ & t0 & t & messages & ->)].
  - now destruct (_mavlinkChannel c =? 0).
  - cbn [_startDTG set_curTimeUSecs].
    rewrite feed_startDTG_kept; rewrite (E t0); auto.
Qed.

(** X17: destroying the converter after a call hands back exactly the
    channel that the call used, clears it, and a second destruction hands
    back nothing; with no channel held and none reservable nothing is handed
    back at all. *)
Theorem delete_frees_the_channel_once reserved source dstOpens dstFilename ch n c out :
  convert reserved source dstOpens dstFilename ch n c = Some out ->
  let held := if _mavlinkChannel c =? 0 then reserved else _mavlinkChannel c in
  let (freed, gone) := UTMConverter_delete (converter out) in
  freed = (if held =? 0 then None else Some held)
  /\ _mavlinkChannel gone = 0
  /\ _logItems gone = _logItems (converter out)
  /\ UTMConverter_delete gone = (None, gone).
Proof.
  intros H held.
  assert (E : _mavlinkChannel (converter out) = held).
  { apply convert_converter in H.
    assert (E : _mavlinkChannel
                  (if _mavlinkChannel c =? 0 then set_mavlinkChannel reserved c else c)
                = held)
      by (subst held; now destruct (_mavlinkChannel c =? 0)).
    destruct H as [(_ & ->)|(_ & t0 & t & messages & ->)]; [exact E|].
    cbn [_mavlinkChannel set_curTimeUSecs]. rewrite feed_mavlinkChannel. exact E. }
  unfold UTMConverter_delete. rewrite E.
  destruct (Z.eqb_spec held 0) as [Z0|NZ]; cbn [negb].
  - rewrite <- E in Z0. repeat split; auto.
    now rewrite (proj2 (Z.eqb_eq _ _) Z0).
  - repeat split.
Qed.

(** X18: each early return leaves the files as the code shows: with no
    channel neither file is touched; with an unreadable source the
    destination is not touched; with an unwritable destination the source is
    closed again.  In all three the track is the one the converter had. *)
Theorem failed_call_touches_little reserved source dstOpens dstFilename ch n c out :
  convert reserved source dstOpens dstFilename ch n c = Some out ->
  returned out = false ->
  _logItems (converter out) = _logItems c
  /\ ((_mavlinkChannel c = 0 /\ reserved = 0
       /\ logFileOps out = [] /\ utmLogFileOps out = [])
      \/ (source = None
          /\ logFileOps out = [f_open false] /\ utmLogFileOps out = [])
      \/ (dstOpens = false
          /\ logFileOps out = [f_open true; f_close]
          /\ utmLogFileOps out = [f_open false])).
Proof.
  unfold Pipeline.convertTelemetryFile.
  set (c1 := if _mavlinkChannel c =? 0 then set_mavlinkChannel reserved c else c).
  assert (L : _logItems c1 = _logItems c)
    by (subst c1; now destruct (_mavlinkChannel c =? 0)).
  assert (NS : (_mavlinkChannel c1 =? 0) = true ->
               _mavlinkChannel c = 0 /\ reserved = 0).
  { subst c1. destruct (Z.eqb_spec (_mavlinkChannel c) 0) as [E|E]; cbn.
    - intros R. apply Z.eqb_eq in R. now split.
    - intros R. apply Z.eqb_eq in R. contradiction. }
  destruct (_mavlinkChannel c1 =? 0) eqn:T.
  { intros H _. injection H as <-. split; [exact L|]. left.
    destruct (NS eq_refl). now repeat split. }
  destruct source as [content|].
  2:{ intros H _. injection H as <-. split; [exact L|]. right. left. now repeat split. }
  destruct dstOpens; cbn [negb].
  2:{ intros H _. injection H as <-. split; [exact L|]. right. right. now repeat split. }
  match goal with
  | |- context [parseLog ?f ?c0 ?r0] =>
      destruct (parseLog f c0 r0) as [[c' r']|]; [|discriminate]
  end.
  intros H R. injection H as <-. discriminate R.
Qed.

(** X19: a call that ends with a track of [n] items writes, between open
    and close, the header, one line per item in track order with only the
    last one marked as last (it alone has no trailing comma), the keys, the
    logging start in milliseconds (the track start divided by 1000) and the
    footer naming the destination; the file is not removed. *)
Theorem track_is_written_in_order
    reserved source dstOpens dstFilename ch n c out items lastItem :
  convert reserved source dstOpens dstFilename ch n c = Some out ->
  returned out = true ->
  _logItems (converter out) = items ++ [lastItem] ->
  utmLogFileOps out
  = [f_open true; f_write kLoggingHeader]
    ++ map (fun item => f_write (itemLine item false)) items
    ++ [f_write (itemLine lastItem true);
        f_write kLoggingKeys;
        f_write (startDtgLine (to_qint64 (_startDTG (converter out) / 1000)));
        f_write (kLoggingFooter dstFilename);
        f_close].
Proof.
  intros H R E.
  destruct (convert_outcome host beyond clock Channel mavlink_parse_char indeterminate
              reserved source dstOpens dstFilename ch n c) as (out' & H' & D).
  rewrite H in H'. injection H' as <-.
  destruct D as [(R' & _)|[(R' & _)|[(R' & _)|(_ & _ & _ & _ & O)]]];
    try (rewrite R in R'; discriminate R').
  rewrite O. unfold writeTrack, size. rewrite E.
  assert (N : (List.length (items ++ [lastItem]) =? 0)%nat = false).
  { apply Nat.eqb_neq. rewrite length_app. cbn. lia. }
  rewrite N. cbn [negb].
  pose proof (writeItems_flags items 0 lastItem) as W. cbn [Nat.add] in W.
  rewrite W. cbn [app]. f_equal. f_equal. rewrite <- !app_assoc. reflexivity.
Qed.

(** X20: a source of eight bytes or fewer holds at most the opening
    timestamp: the call succeeds and leaves the track and the track start as
    they were. *)
Theorem source_without_messages reserved content dstFilename ch n c :
  (List.length content <= 8)%nat ->
  ~ (_mavlinkChannel c = 0 /\ reserved = 0) ->
  exists out,
    convert reserved (Some content) true dstFilename ch n c = Some out
    /\ returned out = true
    /\ _logItems (converter out) = _logItems c
    /\ _startDTG (converter out) = _startDTG c.
Proof.
  intros L NS. unfold Pipeline.convertTelemetryFile.
  set (c1 := if _mavlinkChannel c =? 0 then set_mavlinkChannel reserved c else c).
  assert (T : (_mavlinkChannel c1 =? 0) = false).
  { subst c1. destruct (Z.eqb_spec (_mavlinkChannel c) 0) as [E|E]; cbn.
    - apply Z.eqb_neq. intros R. apply NS. now split.
    - now apply Z.eqb_neq. }
  rewrite T. cbn [negb].
  rewrite (skipn_all2 content) by exact L.
  cbn [unread List.length Pipeline.parseLog Pipeline._readNextMavlinkMessage
       channel ticks Pipeline.readBytes].
  change (to_qint64 0 =? 0) with true.
  eexists. split; [reflexivity|]. cbn [returned converter].
  subst c1. destruct (_mavlinkChannel c =? 0); repeat split.
Qed.

(** X21: what [convertTelemetryFile] leaves on a new converter is a track
    in which no item compares equal to the next and no field is a NaN,
    whatever the bytes of the log and whatever the parser makes of them. *)
Theorem converted_track_is_clean reserved source dstOpens dstFilename ch n out :
  convert reserved source dstOpens dstFilename ch n UTMConverter_new = Some out ->
  noRepeats (_logItems (converter out)) = true
  /\ forallb allNumbers (_logItems (converter out)) = true.
Proof.
  intros H.
  apply (convert_track_fed host beyond clock Channel mavlink_parse_char indeterminate)
    in H as (messages & ->).
  split.
  - apply (settled_feed messages UTMConverter_new settled_new).
  - now apply ConverterMore.allNumbers_feed.
Qed.

End Reader.

End PipelineMore.

(** ** Worked examples *)

Module Examples.

Import Int Endian Timestamp Mavlink Converter Spec Pipeline Fixture.

(** The timestamp [01 00 00 00 00 00 00 00] read big endian lies in the
    future of the clock and is swapped to 1. *)
Lemma parseTimestamp_decodes_witness :
  let bytes := [Byte.x01; Byte.x00; Byte.x00; Byte.x00;
                Byte.x00; Byte.x00; Byte.x00; Byte.x00] in
  List.length bytes = 8%nat
  /\ be_value bytes = 72057594037927936
  /\ _parseTimestamp LittleEndian zeros 1700000000000 bytes = 1.
Proof.
  intros bytes. split; [reflexivity|]. split; [reflexivity|].
  destruct (TimestampFacts.parseTimestamp_decodes
              LittleEndian zeros 1700000000000 bytes eq_refl) as (E & _).
  rewrite E. vm_compute. reflexivity.
Defined.

(** A raw fix with a 3D lock, two seconds after a speed report opened the
    track. *)
Lemma gpsRawInt_builds_sample_witness :
  let c := feed UTMConverter_new [(1000000, MAVLINK_MSG_ID_VFR_HUD speedReport)] in
  _globalPositionIntMessageAvailable c = false
  /\ GPS_FIX_TYPE_3D_FIX <= gps_raw_int.fix_type lock3D
  /\ _logItems (_newMavlinkMessage 3000000 (MAVLINK_MSG_ID_GPS_RAW_INT lock3D) c)
     = [ {| time := 2%float;
            lon := (Double.of_int32 377654320 / 1e7)%float;
            lat := (Double.of_int32 377654320 / 1e7)%float;
            alt := 100%float;
            speed := 5.5%float |} ].
Proof.
  intros c.
  assert (H1 : _globalPositionIntMessageAvailable c = false) by reflexivity.
  assert (H2 : GPS_FIX_TYPE_3D_FIX <= gps_raw_int.fix_type lock3D)
    by (vm_compute; discriminate).
  split; [exact H1|]. split; [exact H2|].
  destruct (ConverterFacts.gpsRawInt_builds_sample 3000000 lock3D c H1 H2)
    as (_ & _ & _ & E).
  rewrite E. vm_compute. reflexivity.
Defined.

(** Two positions with a speed report in between: the two items differ. *)
Lemma track_has_no_repeats_witness :
  let messages :=
    [ (1000000, MAVLINK_MSG_ID_GLOBAL_POSITION_INT position);
      (2000000, MAVLINK_MSG_ID_VFR_HUD speedReport);
      (3000000, MAVLINK_MSG_ID_GLOBAL_POSITION_INT position) ] in
  let c := feed UTMConverter_new messages in
  exists a b,
    nth_error (_logItems c) 0 = Some a
    /\ nth_error (_logItems c) 1 = Some b
    /\ _compareItem a b = false.
Proof.
  intros messages c.
  destruct (_logItems c) as [|a [|b rest]] eqn:E;
    [vm_compute in E; discriminate E | vm_compute in E; discriminate E|].
  exists a, b. split; [reflexivity|]. split; [reflexivity|].
  apply (proj1 (ConverterFacts.track_has_no_repeats messages) 0%nat a b);
    fold c; rewrite E; reflexivity.
Defined.

(** A position as first message. *)
Lemma first_sample_elapsed_zero_witness :
  let m := MAVLINK_MSG_ID_GLOBAL_POSITION_INT position in
  let rest := [(9000000, MAVLINK_MSG_ID_VFR_HUD speedReport);
               (12000000, MAVLINK_MSG_ID_GPS_RAW_INT lock3D)] in
  positionBearing m = true
  /\ exists first others,
       _logItems (feed UTMConverter_new ((7000000, m) :: rest)) = first :: others
       /\ time first = 0%float.
Proof.
  intros m rest. split; [reflexivity|].
  apply (ConverterFacts.first_sample_elapsed_zero 7000000 m rest). reflexivity.
Defined.

(** A source that cannot be opened. *)
Lemma convert_returns_false_in_three_cases_witness :
  exists out,
    convert 1 None true destination tt 0%nat UTMConverter_new = Some out
    /\ returned out = false.
Proof.
  destruct (PipelineFacts.convert_returns_false_in_three_cases
              LittleEndian zeros clock unit parse_char unwritten
              1 None true destination tt 0%nat UTMConverter_new)
    as (out & E & H & _).
  exists out. split; [exact E|]. apply H. right. left. reflexivity.
Defined.

(** A log that holds a start timestamp and a speed report: the track stays
    empty and the destination is removed. *)
Lemma empty_track_leaves_no_file_witness :
  let log := oneSecond ++ [Byte.x03] ++ oneSecond in
  exists out,
    convert 1 (Some log) true destination tt 0%nat UTMConverter_new = Some out
    /\ _logItems (converter out) = []
    /\ utmLogFileOps out = [f_open true; f_close; f_remove].
Proof.
  intros log.
  destruct (PipelineFacts.empty_track_leaves_no_file
              LittleEndian zeros clock unit parse_char unwritten
              1 (Some log) true destination tt 0%nat UTMConverter_new)
    as (out & E & H).
  exists out. split; [exact E|].
  assert (Empty : _logItems (converter out) = []).
  { vm_compute in E. injection E as <-. reflexivity. }
  split; [exact Empty|].
  destruct (H Empty) as (_ & T & _). apply T.
  vm_compute in E. injection E as <-. reflexivity.
Defined.

(** A position followed by the timestamp zero, with another position behind
    it: the loop stops with the converter untouched. *)
Lemma zero_timestamp_ends_the_loop_witness :
  let rest := [Byte.x01] ++ oneSecond in
  let r := mkReader ([Byte.x01] ++ zeroTime ++ rest) tt 1%nat in
  let c := set_curTimeUSecs 1000000 UTMConverter_new in
  _parseTimestamp LittleEndian zeros (clock 1) zeroTime = 0
  /\ parseLog LittleEndian zeros clock unit parse_char unwritten 5 c r
     = Some (c, mkReader rest tt 2%nat).
Proof.
  intros rest r c.
  assert (Z0 : _parseTimestamp LittleEndian zeros (clock (ticks r)) zeroTime = 0)
    by (vm_compute; reflexivity).
  split; [exact Z0|].
  apply (PipelineFacts.zero_timestamp_ends_the_loop
           LittleEndian zeros clock unit parse_char unwritten
           4 c r [] tt Byte.x01 tt
           (MAVLINK_MSG_ID_GLOBAL_POSITION_INT position) zeroTime rest);
    try reflexivity; exact Z0.
Defined.

End Examples.

(** ** Further worked examples *)

Module MoreExamples.

Import Int Endian Timestamp Mavlink Converter Spec Notions Pipeline Lifetime Replay.
Import Fixture Reuse.

Lemma parseTimestamp_zero_iff_witness :
  List.length zeroTime = 8%nat
  /\ _parseTimestamp LittleEndian zeros now zeroTime = 0.
Proof.
  split; [reflexivity|].
  apply (proj2 (TimestampMore.parseTimestamp_zero_iff
                  LittleEndian zeros now zeroTime eq_refl)).
  reflexivity.
Defined.

Lemma parseTimestamp_portable_witness :
  let bytes := oneSecond ++ [Byte.x01] in
  (8 <= List.length bytes)%nat
  /\ _parseTimestamp LittleEndian zeros now bytes
     = _parseTimestamp BigEndian (fun _ => Byte.xff) now (firstn 8 bytes).
Proof.
  intros bytes.
  assert (L : (8 <= List.length bytes)%nat) by (cbn; lia).
  split; [exact L|]. now apply TimestampMore.parseTimestamp_portable.
Defined.

Lemma parseTimestamp_picks_a_past_reading_witness :
  List.length oneSecond = 8%nat
  /\ be_value oneSecond <= currentTimestamp now
  /\ _parseTimestamp LittleEndian zeros now oneSecond <= currentTimestamp now.
Proof.
  assert (P : be_value oneSecond <= currentTimestamp now)
    by (vm_compute; discriminate).
  split; [reflexivity|]. split; [exact P|].
  apply (proj2 (TimestampMore.parseTimestamp_picks_a_past_reading
                  LittleEndian zeros now oneSecond eq_refl)).
  now left.
Defined.

Lemma parseTimestamp_detects_byte_order_witness :
  List.length oneSecond = 8%nat
  /\ be_value oneSecond <= currentTimestamp now
  /\ currentTimestamp now < le_value oneSecond
  /\ _parseTimestamp LittleEndian zeros now oneSecond = 1000000
  /\ _parseTimestamp LittleEndian zeros now (rev oneSecond) = 1000000.
Proof.
  assert (P : be_value oneSecond <= currentTimestamp now)
    by (vm_compute; discriminate).
  assert (F : currentTimestamp now < le_value oneSecond)
    by (vm_compute; reflexivity).
  split; [reflexivity|]. split; [exact P|]. split; [exact F|].
  exact (TimestampMore.parseTimestamp_detects_byte_order
           LittleEndian zeros now oneSecond eq_refl P F).
Defined.

Lemma weak_fix_is_ignored_witness :
  let g := gps_raw_int.mk 2 377654320 (-1223456780) 100000 in
  gps_raw_int.fix_type g < GPS_FIX_TYPE_3D_FIX
  /\ _logItems (_newMavlinkMessage 1000000 (MAVLINK_MSG_ID_GPS_RAW_INT g)
                  UTMConverter_new) = [].
Proof.
  intros g.
  assert (F : gps_raw_int.fix_type g < GPS_FIX_TYPE_3D_FIX)
    by (vm_compute; reflexivity).
  split; [exact F|].
  exact (proj1 (ConverterMore.weak_fix_is_ignored 1000000 g UTMConverter_new F)).
Defined.

Lemma items_hold_numbers_witness :
  let messages :=
    [ (1000000, MAVLINK_MSG_ID_VFR_HUD (vfr_hud.mk PrimFloat.nan));
      (3000000, MAVLINK_MSG_ID_GLOBAL_POSITION_INT position) ] in
  let item := positionSample 3000000 1000000 0%float position in
  In item (_logItems (feed UTMConverter_new messages))
  /\ PrimFloat.is_nan (speed item) = false.
Proof.
  intros messages item.
  assert (H : In item (_logItems (feed UTMConverter_new messages)))
    by (vm_compute; left; reflexivity).
  split; [exact H|].
  apply (ConverterMore.items_hold_numbers messages item H).
Defined.

Lemma differing_position_is_appended_witness :
  _logItems UTMConverter_new = []
  /\ _logItems (_newMavlinkMessage 1000000
                  (MAVLINK_MSG_ID_GLOBAL_POSITION_INT position) UTMConverter_new)
     = [positionSample 1000000 1000000 0%float position].
Proof.
  split; [reflexivity|].
  rewrite (ConverterMore.differing_position_is_appended
             1000000 position UTMConverter_new (or_introl eq_refl)).
  reflexivity.
Defined.

Lemma unfinished_tail_is_dropped_witness :
  let r := mkReader [Byte.x00; Byte.x07] tt 1%nat in
  silent unit parse_char (channel r) (unread r) = Some tt
  /\ parseLog LittleEndian zeros clock unit parse_char unwritten 1 UTMConverter_new r
     = Some (UTMConverter_new, mkReader [] tt 1%nat).
Proof.
  intros r.
  assert (H : silent unit parse_char (channel r) (unread r) = Some tt) by reflexivity.
  split; [exact H|].
  exact (PipelineMore.unfinished_tail_is_dropped
           LittleEndian zeros clock unit parse_char unwritten
           0 UTMConverter_new r tt H).
Defined.

Lemma loop_is_fold_witness :
  let r := mkReader ([Byte.x01] ++ oneSecond ++ [Byte.x03] ++ fiveMicros) tt 1%nat in
  let rEnd := mkReader [] tt 3%nat in
  let records := [ (MAVLINK_MSG_ID_GLOBAL_POSITION_INT position, 1000000);
                   (MAVLINK_MSG_ID_VFR_HUD speedReport, 5) ] in
  let c := set_curTimeUSecs 7 UTMConverter_new in
  reads LittleEndian zeros clock unit parse_char unwritten r records rEnd
  /\ parseLog LittleEndian zeros clock unit parse_char unwritten 3 c r
     = Some (set_curTimeUSecs 5
               (feed c [ (7, MAVLINK_MSG_ID_GLOBAL_POSITION_INT position);
                         (1000000, MAVLINK_MSG_ID_VFR_HUD speedReport) ]),
             rEnd).
Proof.
  intros r rEnd records c.
  assert (R : reads LittleEndian zeros clock unit parse_char unwritten r records rEnd).
  { cbn [reads records]. eexists. split; [vm_compute; reflexivity|].
    split; [discriminate|]. eexists. split; [vm_compute; reflexivity|].
    split; [discriminate|reflexivity]. }
  split; [exact R|].
  rewrite (PipelineMore.loop_is_fold
             LittleEndian zeros clock unit parse_char unwritten
             records 3 c r rEnd R eq_refl); [reflexivity|cbn; lia].
Defined.

Lemma convert_keeps_items_witness :
  exists out,
    convert 0 (Some secondLog) true destination tt 0%nat used = Some out
    /\ firstn 1 (_logItems (converter out)) = _logItems used.
Proof.
  destruct (convert 0 (Some secondLog) true destination tt 0%nat used)
    as [out|] eqn:E; [|vm_compute in E; discriminate E].
  exists out. split; [reflexivity|].
  exact (PipelineMore.convert_keeps_items
           LittleEndian zeros clock unit parse_char unwritten
           0 (Some secondLog) true destination tt 0%nat used out E).
Defined.

Lemma channel_is_reserved_once_witness :
  _mavlinkChannel used <> 0
  /\ convert 0 (Some secondLog) true destination tt 0%nat used
     = convert 9 (Some secondLog) true destination tt 0%nat used.
Proof.
  assert (H : _mavlinkChannel used <> 0) by (vm_compute; discriminate).
  split; [exact H|].
  exact (proj2 (PipelineMore.channel_is_reserved_once
                  LittleEndian zeros clock unit parse_char unwritten
                  0 9 (Some secondLog) true destination tt 0%nat used) H).
Defined.

Lemma startDTG_outlives_a_call_witness :
  exists out,
    _startDTG used <> 0
    /\ convert 0 (Some secondLog) true destination tt 0%nat used = Some out
    /\ _startDTG (converter out) = 1000000.
Proof.
  assert (H : _startDTG used <> 0) by (vm_compute; discriminate).
  destruct (convert 0 (Some secondLog) true destination tt 0%nat used)
    as [out|] eqn:E; [|vm_compute in E; discriminate E].
  exists out. split; [exact H|]. split; [reflexivity|].
  exact (PipelineMore.startDTG_outlives_a_call
           LittleEndian zeros clock unit parse_char unwritten
           0 (Some secondLog) true destination tt 0%nat used out H E).
Defined.

Lemma delete_frees_the_channel_once_witness :
  exists out,
    convert 1 None true destination tt 0%nat UTMConverter_new = Some out
    /\ fst (UTMConverter_delete (converter out)) = Some 1.
Proof.
  destruct (convert 1 None true destination tt 0%nat UTMConverter_new)
    as [out|] eqn:E; [|vm_compute in E; discriminate E].
  exists out. split; [reflexivity|].
  pose proof (PipelineMore.delete_frees_the_channel_once
                LittleEndian zeros clock unit parse_char unwritten
                1 None true destination tt 0%nat UTMConverter_new out E) as H.
  cbv zeta in H.
  destruct (UTMConverter_delete (converter out)) as [freed gone].
  exact (proj1 H).
Defined.

Lemma failed_call_touches_little_witness :
  exists out,
    convert 1 (Some secondLog) false destination tt 0%nat used = Some out
    /\ returned out = false
    /\ _logItems (converter out) = _logItems used.
Proof.
  destruct (convert 1 (Some secondLog) false destination tt 0%nat used)
    as [out|] eqn:E; [|vm_compute in E; discriminate E].
  assert (R : returned out = false)
    by (vm_compute in E; injection E as <-; reflexivity).
  exists out. split; [reflexivity|]. split; [exact R|].
  exact (proj1 (PipelineMore.failed_call_touches_little
                  LittleEndian zeros clock unit parse_char unwritten
                  1 (Some secondLog) false destination tt 0%nat used out E R)).
Defined.

Lemma track_is_written_in_order_witness :
  let log := oneSecond ++ [Byte.x01] ++ fiveMicros in
  let item := positionSample 1000000 1000000 0%float position in
  exists out,
    convert 1 (Some log) true destination tt 0%nat UTMConverter_new = Some out
    /\ returned out = true
    /\ _logItems (converter out) = [] ++ [item]
    /\ utmLogFileOps out
       = [f_open true; f_write kLoggingHeader; f_write (itemLine item true);
          f_write kLoggingKeys; f_write (startDtgLine 1000);
          f_write (kLoggingFooter destination); f_close].
Proof.
  intros log item.
  destruct (convert 1 (Some log) true destination tt 0%nat UTMConverter_new)
    as [out|] eqn:E; [|vm_compute in E; discriminate E].
  assert (R : returned out = true)
    by (vm_compute in E; injection E as <-; reflexivity).
  assert (L : _logItems (converter out) = [] ++ [item])
    by (vm_compute in E; injection E as <-; vm_compute; reflexivity).
  assert (S : _startDTG (converter out) = 1000000)
    by (vm_compute in E; injection E as <-; reflexivity).
  exists out. split; [reflexivity|]. split; [exact R|]. split; [exact L|].
  rewrite (PipelineMore.track_is_written_in_order
             LittleEndian zeros clock unit parse_char unwritten
             1 (Some log) true destination tt 0%nat UTMConverter_new out [] item E R L).
  rewrite S. reflexivity.
Defined.

Lemma source_without_messages_witness :
  (List.length oneSecond <= 8)%nat
  /\ ~ (_mavlinkChannel UTMConverter_new = 0 /\ 1 = 0)
  /\ exists out,
       convert 1 (Some oneSecond) true destination tt 0%nat UTMConverter_new = Some out
       /\ returned out = true
       /\ _logItems (converter out) = _logItems UTMConverter_new
       /\ _startDTG (converter out) = _startDTG UTMConverter_new.
Proof.
  assert (L : (List.length oneSecond <= 8)%nat) by (cbn; lia).
  assert (N : ~ (_mavlinkChannel UTMConverter_new = 0 /\ 1 = 0))
    by (intros [_ H]; discriminate H).
  split; [exact L|]. split; [exact N|].
  exact (PipelineMore.source_without_messages
           LittleEndian zeros clock unit parse_char unwritten
           1 oneSecond destination tt 0%nat UTMConverter_new L N).
Defined.

Lemma converted_track_is_clean_witness :
  let log := oneSecond ++ [Byte.x01] ++ fiveMicros ++ [Byte.x01] ++ nineMicros in
  exists out,
    convert 1 (Some log) true destination tt 0%nat UTMConverter_new = Some out
    /\ noRepeats (_logItems (converter out)) = true.
Proof.
  intros log.
  destruct (convert 1 (Some log) true destination tt 0%nat UTMConverter_new)
    as [out|] eqn:E; [|vm_compute in E; discriminate E].
  exists out. split; [reflexivity|].
  exact (proj1 (PipelineMore.converted_track_is_clean
                  LittleEndian zeros clock unit parse_char unwritten
                  1 (Some log) true destination tt 0%nat out E)).
Defined.

End MoreExamples.
